(** * Music mixer decision engine: a shallow embedding of music_mixer_logic.py

    The development follows the source file top to bottom: Python string
    helpers, the regular expressions used on file names, the Camelot wheel,
    the metadata resolver with its caches, the classifier, the composition
    selector and the mix assembler.

    Modelling conventions.
    - A Python [str] is a [string]; characters are given their ASCII meaning
      (case mapping, digits, white space and word characters are the ASCII
      ones; code points from 128 on are caseless, non-space, non-word).
    - A Python [int] is a [Z]; the tempo estimate of the analysis library is
      an IEEE double ([float]); volumes and the value of [random.random()]
      are exact rationals ([Q]), i.e. the rounding of [random.uniform] is
      abstracted.
    - [None] is [None]; an exception is an explicit [Raise] outcome; a loop
      that may not terminate runs on fuel and [Timeout] is the outcome of an
      exhausted fuel.
    - librosa, pydub, the file system and the clock are external: they
      appear as the oracles of a record [Env]; the Mersenne Twister is an
      arbitrary sequence of raw draws with a cursor.
    - An audio segment is taken at two granularities.  The engine functions
      work on segments abstracted to a whole number of milliseconds
      ([AudioSegment], module [Pydub]), which is the unit of every length
      the engine reads or asks for.  pydub itself stores frames, and
      [len()] is the frame count turned into milliseconds and rounded:
      whether a repeat-append loop ends is decided by the frames, so the
      loops are embedded once more on frame counts (module [Frames]).  On
      segments whose frames last one millisecond the two embeddings of the
      loop agree ([whole_ms_loop]). *)

From Stdlib Require Import ZArith NArith QArith Qround Ascii Lia List Permutation.
From Stdlib Require String.
From Stdlib Require Import PrimFloat.
From Stdlib Require Uint63.
From stdpp Require Import base option list gmap strings.

#[local] Open Scope Z_scope.

(** ** Python string helpers *)

Module Py.

Definition code (c : ascii) : N := N_of_ascii c.

Definition isdigit (c : ascii) : bool := ((48 <=? code c) && (code c <=? 57))%N.
Definition isupper (c : ascii) : bool := ((65 <=? code c) && (code c <=? 90))%N.
Definition islower (c : ascii) : bool := ((97 <=? code c) && (code c <=? 122))%N.

(** [\s] of a [str] pattern: the characters for which [str.isspace] holds. *)
Definition isspace (c : ascii) : bool :=
  (((9 <=? code c) && (code c <=? 13)) || ((28 <=? code c) && (code c <=? 32)))%N.

(** [\w]: alphanumeric or underscore. *)
Definition isword (c : ascii) : bool :=
  isdigit c || isupper c || islower c || (code c =? 95)%N.

Definition lower_char (c : ascii) : ascii :=
  if isupper c then ascii_of_N (code c + 32) else c.
Definition upper_char (c : ascii) : ascii :=
  if islower c then ascii_of_N (code c - 32) else c.

Fixpoint lower (s : string) : string :=
  match s with
  | EmptyString => EmptyString
  | String c t => String (lower_char c) (lower t)
  end.

Fixpoint upper (s : string) : string :=
  match s with
  | EmptyString => EmptyString
  | String c t => String (upper_char c) (upper t)
  end.

(** [s.startswith(w)] *)
Fixpoint startswith (w s : string) : bool :=
  match w, s with
  | EmptyString, _ => true
  | String a w', String b s' => Ascii.eqb a b && startswith w' s'
  | String _ _, EmptyString => false
  end.

(** [w in s] for strings: [w] occurs in [s] as a substring. *)
Fixpoint contains (w s : string) : bool :=
  startswith w s ||
  match s with
  | EmptyString => false
  | String _ t => contains w t
  end.

(** [s.endswith(w)] *)
Definition endswith (w s : string) : bool :=
  let n := String.length s in
  let k := String.length w in
  (k <=? n)%nat && String.eqb (String.substring (n - k) k s) w.

(** [s[:-1]] and [s[-1]] (the latter on a non-empty string). *)
Definition drop_last (s : string) : string :=
  String.substring 0 (String.length s - 1) s.
Definition last_char (s : string) : string :=
  String.substring (String.length s - 1) 1 s.

(** [int(s)] on a string of decimal digits, the only strings the source
    passes to it (a [\d{2,3}] group, the number part of a wheel key). *)
Definition digit_value (c : ascii) : Z := Z.of_N (code c) - 48.
Fixpoint int_acc (acc : Z) (s : string) : Z :=
  match s with
  | EmptyString => acc
  | String c t => int_acc (10 * acc + digit_value c) t
  end.
Definition int (s : string) : Z := int_acc 0 s.

(** [str(n)] / [f"{n}"] for an integer. *)
Definition digit_char (d : N) : ascii := ascii_of_N (48 + d).
Fixpoint str_N_aux (fuel : nat) (n : N) (acc : string) : string :=
  match fuel with
  | O => acc
  | S f =>
      let acc' := String (digit_char (n mod 10)) acc in
      if (n / 10 =? 0)%N then acc' else str_N_aux f (n / 10) acc'
  end.
Definition str_N (n : N) : string :=
  str_N_aux (S (N.to_nat (N.log2 n))) n EmptyString.
Definition str (z : Z) : string :=
  if z <? 0 then String "-"%char (str_N (Z.abs_N z)) else str_N (Z.to_N z).

(** [k in d] and [d[k]] / [d.get(k)] for a dict literal, kept as the list of
    its items in insertion order. *)
Fixpoint dict_get {V : Type} (k : string) (d : list (string * V)) : option V :=
  match d with
  | [] => None
  | (k', v) :: d' => if String.eqb k' k then Some v else dict_get k d'
  end.
Definition dict_mem {V : Type} (k : string) (d : list (string * V)) : bool :=
  match dict_get k d with Some _ => true | None => false end.

(** [x in l] for a list of strings. *)
Definition list_mem (x : string) (l : list string) : bool :=
  existsb (String.eqb x) l.

(** [any(word in s for word in words)] *)
Definition any_in (words : list string) (s : string) : bool :=
  existsb (fun w => contains w s) words.

End Py.

(** ** posixpath *)

Module OsPath.

(** Index just after the last ['/'] of [p] ([p.rfind('/') + 1]). *)
Fixpoint after_last_slash (p : string) : nat :=
  match p with
  | EmptyString => 0
  | String c t =>
      if Py.contains "/" t then S (after_last_slash t)
      else if Ascii.eqb c "/" then 1 else 0
  end%nat.

Definition basename (p : string) : string :=
  let i := after_last_slash p in
  String.substring i (String.length p - i) p.

Fixpoint all_slashes (s : string) : bool :=
  match s with
  | EmptyString => true
  | String c t => Ascii.eqb c "/" && all_slashes t
  end.

(** [s.rstrip('/')] *)
Fixpoint rstrip_slash (s : string) : string :=
  match s with
  | EmptyString => EmptyString
  | String c t =>
      match rstrip_slash t with
      | EmptyString => if Ascii.eqb c "/" then EmptyString else String c EmptyString
      | t' => String c t'
      end
  end.

Definition dirname (p : string) : string :=
  let head := String.substring 0 (after_last_slash p) p in
  if all_slashes head then head else rstrip_slash head.

(** [os.path.join(a, b)] *)
Definition join (a b : string) : string :=
  if Py.startswith "/" b then b
  else if String.eqb a "" || Py.endswith "/" a then a +:+ b
  else a +:+ "/" +:+ b.

End OsPath.

(** ** Regular expressions

    The fragment of [re] the source uses: single characters and character
    classes, concatenation, greedy bounded and unbounded repetition of a
    class, one capturing group, [^], [$] and [\b].  Matching backtracks as
    Python's engine does: [search] tries the start positions from left to
    right and, at each, the longest repetitions first.  All patterns of the
    source are compiled with [re.IGNORECASE], so a literal compares modulo
    case. *)

Module Re.

Inductive regex : Type :=
| Eps
| Lit (c : ascii)
| Cls (p : ascii -> bool)
| Seq (r1 r2 : regex)
| Rep (p : ascii -> bool) (lo hi : nat)
| Star (p : ascii -> bool)
| Grp (r : regex)
| Bol
| Eol
| WordB.

(** The position of the matcher: the character before it, the text after
    it, and the text captured by the group, if it has been closed. *)
Record mstate : Type := MState {
  prev : option ascii;
  rest : string;
  cap : option string
}.

Definition step (p : ascii -> bool) (st : mstate) : option mstate :=
  match rest st with
  | String c t => if p c then Some (MState (Some c) t (cap st)) else None
  | EmptyString => None
  end.

Fixpoint rep_greedy (p : ascii -> bool) (lo hi : nat) (st : mstate)
    (k : mstate -> option mstate) : option mstate :=
  match hi with
  | O => match lo with O => k st | S _ => None end
  | S hi' =>
      let stop := match lo with O => k st | S _ => None end in
      match step p st with
      | Some st' =>
          match rep_greedy p (Nat.pred lo) hi' st' k with
          | Some r => Some r
          | None => stop
          end
      | None => stop
      end
  end.

Definition is_word_opt (c : option ascii) : bool :=
  match c with Some c => Py.isword c | None => false end.

Definition next_char (s : string) : option ascii :=
  match s with String c _ => Some c | EmptyString => None end.

Fixpoint rmatch (r : regex) (st : mstate) (k : mstate -> option mstate)
    : option mstate :=
  match r with
  | Eps => k st
  | Lit c => step (fun x => Ascii.eqb (Py.lower_char x) (Py.lower_char c)) st ≫= k
  | Cls p => step p st ≫= k
  | Seq r1 r2 => rmatch r1 st (fun st' => rmatch r2 st' k)
  | Rep p lo hi => rep_greedy p lo hi st k
  | Star p => rep_greedy p 0 (String.length (rest st)) st k
  | Grp r1 =>
      rmatch r1 st (fun st' =>
        let n := (String.length (rest st) - String.length (rest st'))%nat in
        k (MState (prev st') (rest st') (Some (String.substring 0 n (rest st)))))
  | Bol => match prev st with None => k st | Some _ => None end
  | Eol =>
      match rest st with
      | EmptyString => k st
      | String c EmptyString => if Ascii.eqb c "010" then k st else None
      | _ => None
      end
  | WordB =>
      if xorb (is_word_opt (prev st)) (is_word_opt (next_char (rest st)))
      then k st else None
  end.

Fixpoint search_at (r : regex) (pv : option ascii) (s : string) : option mstate :=
  match rmatch r (MState pv s None) Some with
  | Some st => Some st
  | None =>
      match s with
      | EmptyString => None
      | String c t => search_at r (Some c) t
      end
  end.

(** [m = re.search(r, s, re.IGNORECASE)] followed by [m.group(1)]. *)
Definition search (r : regex) (s : string) : option string :=
  search_at r None s ≫= cap.

(** A literal word. *)
Fixpoint lit (s : string) : regex :=
  match s with
  | EmptyString => Eps
  | String c t => Seq (Lit c) (lit t)
  end.

(** Concatenation of a list of pieces. *)
Fixpoint cat (rs : list regex) : regex :=
  match rs with
  | [] => Eps
  | r :: rs' => Seq r (cat rs')
  end.

End Re.

(** ** Module constants *)

(** [CAMELOT_WHEEL] *)
Definition CAMELOT_WHEEL : list (string * string) :=
  [ ("1A", "B"); ("2A", "F"); ("3A", "C"); ("4A", "G"); ("5A", "D"); ("6A", "A");
    ("7A", "E"); ("8A", "B"); ("9A", "F#"); ("10A", "C#"); ("11A", "G#"); ("12A", "D#");
    ("1B", "G#"); ("2B", "D#"); ("3B", "A#"); ("4B", "F"); ("5B", "C"); ("6B", "G");
    ("7B", "D"); ("8B", "A"); ("9B", "E"); ("10B", "B"); ("11B", "F#"); ("12B", "C#") ].

(** [STANDARD_PROBABILITIES] and [EXPERIMENTAL_PROBABILITIES] *)
Definition STANDARD_PROBABILITIES : list (string * Q) :=
  [ ("drums", 9 # 10); ("bass", 8 # 10); ("melody", 7 # 10); ("harmony", 6 # 10);
    ("vocals", 4 # 10); ("fx", 3 # 10); ("loops", 5 # 10); ("other", 2 # 10) ]%Q.

Definition EXPERIMENTAL_PROBABILITIES : list (string * Q) :=
  [ ("drums", 6 # 10); ("bass", 5 # 10); ("melody", 8 # 10); ("harmony", 7 # 10);
    ("vocals", 6 # 10); ("fx", 8 # 10); ("loops", 4 # 10); ("other", 9 # 10) ]%Q.

(** ** Static methods on file names *)

(** [\d{1,2}[AB]] under IGNORECASE, as a capturing group. *)
Definition is_AB (c : ascii) : bool :=
  let l := Py.lower_char c in Ascii.eqb l "a" || Ascii.eqb l "b".
Definition camelot_group : Re.regex :=
  Re.Grp (Re.Seq (Re.Rep Py.isdigit 1 2) (Re.Cls is_AB)).

(** [[\s_-]] *)
Definition is_sep (c : ascii) : bool :=
  Py.isspace c || Ascii.eqb c "_" || Ascii.eqb c "-".

Definition camelot_patterns : list Re.regex :=
  [ Re.cat [Re.WordB; camelot_group; Re.WordB];
    Re.cat [Re.lit "key"; Re.Star is_sep; camelot_group];
    Re.cat [camelot_group; Re.Star is_sep; Re.lit "key"] ].

Definition musical_keys : list (string * string) :=
  [ ("cmaj", "8B"); ("c major", "8B"); ("c#maj", "3B"); ("c# major", "3B");
    ("dmaj", "10B"); ("d major", "10B"); ("d#maj", "5B"); ("d# major", "5B");
    ("emaj", "12B"); ("e major", "12B"); ("fmaj", "7B"); ("f major", "7B");
    ("f#maj", "2B"); ("f# major", "2B"); ("gmaj", "9B"); ("g major", "9B");
    ("g#maj", "4B"); ("g# major", "4B"); ("amaj", "11B"); ("a major", "11B");
    ("a#maj", "6B"); ("a# major", "6B"); ("bmaj", "1B"); ("b major", "1B");
    ("cmin", "5A"); ("c minor", "5A"); ("c#min", "12A"); ("c# minor", "12A");
    ("dmin", "7A"); ("d minor", "7A"); ("d#min", "2A"); ("d# minor", "2A");
    ("emin", "9A"); ("e minor", "9A"); ("fmin", "4A"); ("f minor", "4A");
    ("f#min", "11A"); ("f# minor", "11A"); ("gmin", "6A"); ("g minor", "6A");
    ("g#min", "1A"); ("g# minor", "1A"); ("amin", "8A"); ("a minor", "8A");
    ("a#min", "3A"); ("a# minor", "3A"); ("bmin", "10A"); ("b minor", "10A") ].

(** The first loop of [extract_key_from_filename]: the first pattern whose
    leftmost match, upper-cased, is a key of the wheel. *)
Fixpoint first_camelot (patterns : list Re.regex) (filename : string) : option string :=
  match patterns with
  | [] => None
  | pattern :: patterns' =>
      match Re.search pattern filename with
      | Some g =>
          let key := Py.upper g in
          if Py.dict_mem key CAMELOT_WHEEL then Some key
          else first_camelot patterns' filename
      | None => first_camelot patterns' filename
      end
  end.

(** The second loop: the first item of the table whose name occurs in the
    lower-cased file name. *)
Fixpoint first_musical (table : list (string * string)) (lowered : string) : option string :=
  match table with
  | [] => None
  | (key_pattern, camelot_key) :: table' =>
      if Py.contains key_pattern lowered then Some camelot_key
      else first_musical table' lowered
  end.

Definition extract_key_from_filename (filename : string) : option string :=
  match first_camelot camelot_patterns filename with
  | Some key => Some key
  | None => first_musical musical_keys (Py.lower filename)
  end.

(** [\d{2,3}] as a capturing group. *)
Definition bpm_group : Re.regex := Re.Grp (Re.Rep Py.isdigit 2 3).

Definition bpm_patterns : list Re.regex :=
  [ Re.cat [bpm_group; Re.lit "bpm"];
    Re.cat [Re.lit "bpm"; Re.Star is_sep; bpm_group];
    Re.cat [Re.Cls is_sep; bpm_group; Re.Cls is_sep; Re.lit "bpm"];
    Re.cat [Re.Bol; bpm_group; Re.Cls is_sep];
    Re.cat [Re.Cls is_sep; bpm_group; Re.Eol];
    Re.cat [Re.Lit "("; bpm_group; Re.Lit ")"] ].

Fixpoint first_bpm (patterns : list Re.regex) (filename : string) : option Z :=
  match patterns with
  | [] => None
  | pattern :: patterns' =>
      match Re.search pattern filename with
      | Some g =>
          let bpm := Py.int g in
          if (80 <=? bpm) && (bpm <=? 180) then Some bpm
          else first_bpm patterns' filename
      | None => first_bpm patterns' filename
      end
  end.

Definition extract_bpm_from_filename (filename : string) : option Z :=
  first_bpm bpm_patterns filename.

(** [get_compatible_keys]; the argument is [None] for an absent key. *)
Definition get_compatible_keys (key : option string) : list (option string) :=
  match key with
  | None => [None]
  | Some k =>
      if negb (Py.dict_mem k CAMELOT_WHEEL) then [Some k]
      else
        let num := Py.int (Py.drop_last k) in
        let letter := Py.last_char k in
        let next_num := if num <? 12 then num + 1 else 1 in
        let prev_num := if num >? 1 then num - 1 else 12 in
        [ Some k;
          Some (Py.str num +:+ (if String.eqb letter "A" then "B" else "A"));
          Some (Py.str next_num +:+ letter);
          Some (Py.str prev_num +:+ letter) ]
  end.

(** ** The external capabilities *)

(** pydub's [AudioSegment], abstracted to what the engine reads of it: its
    length in milliseconds ([len(audio)]) and its frame rate.  A segment is
    taken to last a whole number of milliseconds, so that lengths add up
    under [+] and a slice at a millisecond position has that length; the
    frames below the millisecond are the matter of module [Frames]. *)
Record AudioSegment : Type := Audio {
  length_ms : N;
  frame_rate : Z
}.

Module Pydub.

(** [AudioSegment.empty()] *)
Definition empty : AudioSegment := Audio 0 1.

(** [AudioSegment.silent(duration=d)] *)
Definition silent (d : Z) : AudioSegment := Audio (Z.to_N d) 11025.

(** [a + b], on segments of whole milliseconds. *)
Definition concat (a b : AudioSegment) : AudioSegment :=
  Audio (length_ms a + length_ms b) (Z.max (frame_rate a) (frame_rate b)).

(** [a[:t]]; a negative [t] counts from the end, as for any Python slice. *)
Definition slice_to (a : AudioSegment) (t : Z) : AudioSegment :=
  let n := Z.of_N (length_ms a) in
  Audio (Z.to_N (if t <? 0 then n + t else Z.min n t)) (frame_rate a).

(** [a.apply_gain(db)]: the length is unchanged. *)
Definition apply_gain (a : AudioSegment) : AudioSegment := a.

(** [base.overlay(seg)]: the result has the length of [base]. *)
Definition overlay (base seg : AudioSegment) : AudioSegment :=
  Audio (length_ms base) (Z.max (frame_rate base) (frame_rate seg)).

End Pydub.

(** What the engine calls outside itself.  A [None] result is a raised
    exception. *)
Record Env : Type := {
  (** the decoded signal of [librosa.load] *)
  signal : Type;
  (** [os.walk(d)]: the [(root, files)] pairs, in the order of the walk *)
  os_walk : string -> list (string * list string);
  (** [librosa.load(path, duration=15, mono=True, sr=22050)] *)
  librosa_load : string -> option signal;
  (** [float(librosa.beat.beat_track(y, sr)[0])] *)
  beat_track : signal -> option float;
  (** the onset-strength estimate of the inner [except] branch *)
  onset_tempo : signal -> option float;
  (** [AudioSegment.from_file(path)] *)
  from_file : string -> option AudioSegment;
  (** [a._spawn(a.raw_data, overrides={'frame_rate': r}).set_frame_rate(a.frame_rate)] *)
  respawn : AudioSegment -> Z -> option AudioSegment;
  (** [tempfile.mkdtemp(prefix=...)] *)
  mkdtemp : string -> string;
  (** [datetime.now().strftime(fmt)] *)
  strftime_now : string -> string
}.

(** ** Outcomes *)

Inductive exn : Type :=
| ValueError (msg : string)
| ZeroDivisionError
| DecodeError.

Inductive outcome (A : Type) : Type :=
| Ret (a : A)
| Raise (e : exn)
| Timeout.
Arguments Ret {A} a.
Arguments Raise {A} e.
Arguments Timeout {A}.

(** ** The random source

    The generator is an arbitrary sequence of raw draws and a cursor in it.
    [random.random()] is [k / 2^53] for a 53-bit [k]; [_randbelow(n)] is an
    index below [n]. *)

Record rng : Type := Rng {
  draws : nat -> N;
  cursor : nat
}.

Module Random.

Definition next_draw (g : rng) : N * rng :=
  (draws g (cursor g), Rng (draws g) (S (cursor g))).

Definition two53 : positive := 9007199254740992.

Definition random (g : rng) : Q * rng :=
  let '(k, g') := next_draw g in
  (Z.of_N (k mod Npos two53) # two53, g').

Definition randbelow (n : nat) (g : rng) : nat * rng :=
  let '(k, g') := next_draw g in
  (N.to_nat (k mod N.of_nat n), g').

(** [random.uniform(a, b)] is [a + (b - a) * random()]. *)
Definition uniform (a b : Q) (g : rng) : Q * rng :=
  let '(r, g') := random g in
  ((a + (b - a) * r)%Q, g').

(** [random.choice(seq)] on a non-empty sequence; [None] is the
    [IndexError] of an empty one. *)
Definition choice {A : Type} (seq : list A) (g : rng) : option A * rng :=
  match seq with
  | [] => (None, g)
  | _ => let '(j, g') := randbelow (length seq) g in (seq !! j, g')
  end.

(** The selection loop of [random.sample] for a population of at most 21
    items (the engine's has at most 8): [j = randbelow(n - i)],
    [result[i] = pool[j]], [pool[j] = pool[n - i - 1]]. *)
Fixpoint sample_pool {A : Type} (pool : list A) (k : nat) (g : rng) : list A * rng :=
  match k with
  | O => ([], g)
  | S k' =>
      let n := length pool in
      let '(j, g1) := randbelow n g in
      match pool !! j, pool !! (n - 1)%nat with
      | Some x, Some y =>
          let '(res, g2) := sample_pool (take (n - 1) (<[j := y]> pool)) k' g1 in
          (x :: res, g2)
      | _, _ => ([], g1)
      end
  end.

Definition sample {A : Type} (population : list A) (k : Z) (g : rng)
    : outcome (list A) * rng :=
  if (k <? 0) || (Z.of_nat (length population) <? k)
  then (Raise (ValueError "Sample larger than population or is negative"), g)
  else let '(res, g') := sample_pool population (Z.to_nat k) g in (Ret res, g').

End Random.

(** ** The engine *)

Record MusicMixer : Type := Mixer {
  samples_dir : string;
  target_bpm : Z;
  current_key : option string;
  experimental_mode : bool;
  bpm_cache : gmap string Z;
  key_cache : gmap string (option string);
  temp_dir : string
}.

Definition set_bpm_cache (m : MusicMixer) (c : gmap string Z) : MusicMixer :=
  Mixer (samples_dir m) (target_bpm m) (current_key m) (experimental_mode m)
        c (key_cache m) (temp_dir m).

Definition set_key_cache (m : MusicMixer) (c : gmap string (option string)) : MusicMixer :=
  Mixer (samples_dir m) (target_bpm m) (current_key m) (experimental_mode m)
        (bpm_cache m) c (temp_dir m).

(** [(sample, bpm, key)] *)
Definition sample_info : Type := string * Z * option string.

Record Layer : Type := MkLayer {
  category : string;
  sample : string;
  audio : AudioSegment;
  original_bpm : Z;
  key : option string;
  volume : Q
}.

(** An entry of [composition_info['layers']]. *)
Record LayerInfo : Type := MkLayerInfo {
  info_category : string;
  info_sample : string;
  info_original_bpm : Z;
  info_key : option string;
  info_volume : Q
}.

Record CompositionInfo : Type := MkInfo {
  info_layers : list LayerInfo;
  info_bpm : Z;
  info_target_key : option string;
  info_mode : string;
  info_timestamp : string
}.

Definition Qlt_bool (a b : Q) : bool := negb (Qle_bool b a).

(** [int(q)]: truncation towards zero. *)
Definition Qtrunc (q : Q) : Z := Z.quot (Qnum q) (Zpos (Qden q)).

Definition float_of_Z (z : Z) : float := PrimFloat.of_uint63 (Uint63.of_Z z).

Definition common_bpms : list Z :=
  [80; 85; 90; 95; 100; 105; 110; 115; 120;
   122; 124; 126; 128; 130; 132; 135; 138;
   140; 145; 150; 155; 160; 165; 170; 175; 180].

(** [min(l, key=f)] keeps the first item whose key is smallest: an item
    replaces the current best only when its key is strictly less. *)
Fixpoint min_by (f : Z -> float) (best : Z) (l : list Z) : Z :=
  match l with
  | [] => best
  | x :: l' => min_by f (if PrimFloat.ltb (f x) (f best) then x else best) l'
  end.

(** Octave correction and snapping to the grid, lines 173-181. *)
Definition snap_bpm (bpm : float) : Z :=
  let bpm :=
    if PrimFloat.ltb bpm (float_of_Z 80) then PrimFloat.mul bpm (float_of_Z 2)
    else if PrimFloat.ltb (float_of_Z 180) bpm then PrimFloat.div bpm (float_of_Z 2)
    else bpm in
  match common_bpms with
  | [] => 0
  | x :: l => min_by (fun x => PrimFloat.abs (PrimFloat.sub (float_of_Z x) bpm)) x l
  end.

Section Engine.

Variable env : Env.

(** [MusicMixer(samples_dir, target_bpm, current_key, experimental_mode)] *)
Definition MusicMixer_init (samples_dir : string) (target_bpm : Z)
    (current_key : option string) (experimental_mode : bool) : MusicMixer :=
  Mixer samples_dir target_bpm current_key experimental_mode ∅ ∅
        (mkdtemp env "music_mixer_").

Definition audio_extensions : list string := [".wav"; ".mp3"; ".flac"; ".aiff"].

Definition is_audio_file (f : string) : bool :=
  existsb (fun e => Py.endswith e (Py.lower f)) audio_extensions.

Definition get_all_samples (m : MusicMixer) (custom_dir : option string) : list string :=
  let search_dir :=
    match custom_dir with
    | Some d => if String.eqb d "" then samples_dir m else d
    | None => samples_dir m
    end in
  flat_map (fun rf => map (OsPath.join (fst rf)) (filter is_audio_file (snd rf)))
           (os_walk env search_dir).

(** The audio-analysis branch of [get_bpm]; [None] is an exception that
    reaches the outer handler. *)
Definition analyse_bpm (file_path : string) : option Z :=
  match librosa_load env file_path with
  | None => None
  | Some y =>
      match beat_track env y with
      | Some bpm => Some (snap_bpm bpm)
      | None =>
          match onset_tempo env y with
          | Some bpm => Some (snap_bpm bpm)
          | None => None
          end
      end
  end.

(** The [try] block of [get_bpm]. *)
Definition resolve_bpm (file_path : string) : option Z :=
  let filename := Py.lower (OsPath.basename file_path) in
  match extract_bpm_from_filename filename with
  | Some bpm_from_name => Some bpm_from_name
  | None =>
      let parent_dir := Py.lower (OsPath.basename (OsPath.dirname file_path)) in
      match extract_bpm_from_filename parent_dir with
      | Some parent_bpm => Some parent_bpm
      | None => analyse_bpm file_path
      end
  end.

Definition get_bpm (m : MusicMixer) (file_path : string) : Z * MusicMixer :=
  match bpm_cache m !! file_path with
  | Some bpm => (bpm, m)
  | None =>
      let bpm :=
        match resolve_bpm file_path with
        | Some bpm => bpm
        | None => target_bpm m
        end in
      (bpm, set_bpm_cache m (<[file_path := bpm]> (bpm_cache m)))
  end.

Definition get_sample_key (m : MusicMixer) (file_path : string)
    : option string * MusicMixer :=
  match key_cache m !! file_path with
  | Some key => (key, m)
  | None =>
      let filename := Py.lower (OsPath.basename file_path) in
      let key :=
        match extract_key_from_filename filename with
        | Some key => Some key
        | None =>
            let parent_dir := Py.lower (OsPath.basename (OsPath.dirname file_path)) in
            extract_key_from_filename parent_dir
        end in
      (key, set_key_cache m (<[file_path := key]> (key_cache m)))
  end.

Definition len_Q (a : AudioSegment) : Q := inject_Z (Z.of_N (length_ms a)).

(** [while len(looped) < target: looped += audio] *)
Fixpoint repeat_append (fuel : nat) (looped audio : AudioSegment) (target : Q)
    : option AudioSegment :=
  match fuel with
  | O => None
  | S fuel' =>
      if Qlt_bool (len_Q looped) target
      then repeat_append fuel' (Pydub.concat looped audio) audio target
      else Some looped
  end.

(** The slice position [ideal_length] is a float; pydub converts a position
    with [int()].  The quotient [60000 / target_bpm] is taken exactly: the
    rounding of the float, and its underflow to [0.0] at a tempo of more
    than three hundred digits, are abstracted. *)
Definition optimize_audio_length (fuel : nat) (audio : AudioSegment) (target_bpm : Z)
    : outcome AudioSegment :=
  if target_bpm =? 0 then Raise ZeroDivisionError
  else
    let beat_duration := (inject_Z 60000 / inject_Z target_bpm)%Q in
    let measure_duration := (beat_duration * inject_Z 4)%Q in
    let ideal_length := (measure_duration * inject_Z 4)%Q in
    if Qlt_bool (len_Q audio) ideal_length then
      match repeat_append fuel Pydub.empty audio ideal_length with
      | Some looped => Ret (Pydub.slice_to looped (Qtrunc ideal_length))
      | None => Timeout
      end
    else Ret audio.

Definition change_tempo (audio_segment : AudioSegment) (current_bpm target_bpm : Z)
    : AudioSegment :=
  if (current_bpm =? target_bpm) || (current_bpm <=? 0) then audio_segment
  else
    let speed_factor := (inject_Z target_bpm / inject_Z current_bpm)%Q in
    let new_sample_rate := Qtrunc (inject_Z (frame_rate audio_segment) * speed_factor) in
    match respawn env audio_segment new_sample_rate with
    | Some tempo_changed => tempo_changed
    | None => audio_segment
    end.

(** The [if]/[elif] chain of [classify_samples]. *)
Definition category_of (filename : string) : string :=
  if Py.any_in ["kick"; "drum"; "bd"; "sd"; "snare"; "hat"] filename then "drums"
  else if Py.any_in ["bass"; "sub"; "808"; "low"; "bassline"] filename then "bass"
  else if Py.any_in ["melody"; "lead"; "synth"; "pluck"; "arp"] filename then "melody"
  else if Py.any_in ["chord"; "pad"; "string"; "harmony"; "stabs"] filename then "harmony"
  else if Py.any_in ["fx"; "effect"; "impact"; "sweep"; "rise"] filename then "fx"
  else if Py.any_in ["vocal"; "voice"; "chant"; "sing"; "vox"] filename then "vocals"
  else if Py.any_in ["loop"; "groove"; "full"; "mix"] filename then "loops"
  else "other".

(** [categories[c]] on the [defaultdict(list)]. *)
Definition bucket (categories : gmap string (list sample_info)) (c : string)
    : list sample_info :=
  default [] (categories !! c).

(** The loop of [classify_samples], started from the buckets [categories]. *)
Fixpoint classify_loop (m : MusicMixer) (samples : list string)
    (categories : gmap string (list sample_info))
    : gmap string (list sample_info) * MusicMixer :=
  match samples with
  | [] => (categories, m)
  | sample :: samples' =>
      let '(bpm, m1) := get_bpm m sample in
      let '(key, m2) := get_sample_key m1 sample in
      let filename := Py.lower (OsPath.basename sample) in
      let c := category_of filename in
      classify_loop m2 samples'
        (<[c := bucket categories c ++ [(sample, bpm, key)]]> categories)
  end.

Definition classify_samples (m : MusicMixer) (samples : list string)
    : gmap string (list sample_info) * MusicMixer :=
  classify_loop m samples ∅.

Definition priority_order : list string :=
  ["drums"; "bass"; "melody"; "harmony"; "vocals"; "fx"; "loops"; "other"].

Definition volume_ranges : list (string * (Q * Q)) :=
  [ ("drums", (4 # 10, 9 # 10)); ("bass", (3 # 10, 8 # 10)); ("melody", (2 # 10, 7 # 10));
    ("harmony", (2 # 10, 6 # 10)); ("fx", (1 # 10, 8 # 10)); ("vocals", (3 # 10, 8 # 10));
    ("loops", (2 # 10, 7 # 10)); ("other", (1 # 10, 9 # 10)) ]%Q.

(** [category in categories and categories[category]] *)
Definition populated (categories : gmap string (list sample_info)) (c : string) : bool :=
  match categories !! c with
  | Some (_ :: _) => true
  | _ => false
  end.

(** [probabilities[category]]; every category of [priority_order] is a key
    of both tables. *)
Definition probability (probabilities : list (string * Q)) (c : string) : Q :=
  default 0%Q (Py.dict_get c probabilities).

(** Lines 298-302: one draw per populated category, in priority order. *)
Fixpoint stochastic_inclusion (probabilities : list (string * Q))
    (categories : gmap string (list sample_info)) (order : list string) (g : rng)
    : list string * rng :=
  match order with
  | [] => ([], g)
  | c :: order' =>
      if populated categories c then
        let '(r, g1) := Random.random g in
        let '(rest, g2) := stochastic_inclusion probabilities categories order' g1 in
        (if Qlt_bool r (probability probabilities c) then c :: rest else rest, g2)
      else stochastic_inclusion probabilities categories order' g
  end.

(** Lines 304-306: the fallback list. *)
Definition populated_categories (categories : gmap string (list sample_info))
    : list string :=
  filter (fun c => populated categories c = true) priority_order.

(** [available_categories] as it stands at line 308. *)
Definition available_categories (m : MusicMixer)
    (categories : gmap string (list sample_info)) (g : rng) : list string * rng :=
  let probabilities :=
    if experimental_mode m then EXPERIMENTAL_PROBABILITIES else STANDARD_PROBABILITIES in
  let '(available, g1) := stochastic_inclusion probabilities categories priority_order g in
  match available with
  | [] => (populated_categories categories, g1)
  | _ => (available, g1)
  end.

(** [key in compatible_keys] *)
Definition key_in (key : option string) (keys : list (option string)) : bool :=
  bool_decide (key ∈ keys).

(** Lines 327-337. *)
Definition samples_to_use (c : string) (compatible_keys : list (option string))
    (infos : list sample_info) : list sample_info :=
  let compatible_samples :=
    filter (fun i : sample_info =>
              (if Py.list_mem c ["drums"; "fx"; "other"] then true
               else match snd i with
                    | None => true
                    | Some _ => key_in (snd i) compatible_keys
                    end) = true) infos in
  match compatible_samples with
  | [] => infos
  | _ => compatible_samples
  end.

(** Lines 343-347: the audio of a layer; [Raise] is caught by the caller. *)
Definition layer_audio (fuel : nat) (m : MusicMixer) (sample_path : string)
    (original_bpm : Z) : outcome AudioSegment :=
  match from_file env sample_path with
  | None => Raise DecodeError
  | Some audio =>
      match optimize_audio_length fuel audio (target_bpm m) with
      | Ret audio =>
          Ret (if (original_bpm >? 0) && (Z.abs (original_bpm - target_bpm m) >? 1)
               then change_tempo audio original_bpm (target_bpm m)
               else audio)
      | Raise e => Raise e
      | Timeout => Timeout
      end
  end.

(** The loop over [selected_categories], lines 322-370. *)
Fixpoint build_layers (fuel : nat) (m : MusicMixer)
    (categories : gmap string (list sample_info))
    (compatible_keys : list (option string)) (selected : list string) (g : rng)
    : outcome (list Layer) * rng :=
  match selected with
  | [] => (Ret [], g)
  | c :: selected' =>
      match Random.choice (samples_to_use c compatible_keys (bucket categories c)) g with
      | (None, g1) => build_layers fuel m categories compatible_keys selected' g1
      | (Some (sample_path, original_bpm, sample_key), g1) =>
          match layer_audio fuel m sample_path original_bpm with
          | Timeout => (Timeout, g1)
          | Raise _ => build_layers fuel m categories compatible_keys selected' g1
          | Ret audio =>
              let vol_range := default (2 # 10, 7 # 10)%Q (Py.dict_get c volume_ranges) in
              let '(volume, g2) := Random.uniform (fst vol_range) (snd vol_range) g1 in
              let layer := MkLayer c sample_path audio original_bpm sample_key volume in
              match build_layers fuel m categories compatible_keys selected' g2 with
              | (Ret layers, g3) => (Ret (layer :: layers), g3)
              | other => other
              end
          end
      end
  end.

Definition layer_info (l : Layer) : LayerInfo :=
  MkLayerInfo (category l) (OsPath.basename (sample l)) (original_bpm l) (key l) (volume l).

(** [composition_info]; its [layers] list is filled in step with the
    layers, one entry per layer. *)
Definition composition_info (m : MusicMixer) (layers : list Layer) : CompositionInfo :=
  MkInfo (map layer_info layers) (target_bpm m) (current_key m)
         (if experimental_mode m then "experimental" else "standard")
         (strftime_now env "%Y-%m-%d %H:%M:%S").

Definition create_multilayer_composition (fuel : nat) (m : MusicMixer) (g : rng)
    (num_layers : Z) (custom_samples_dir : option string)
    : outcome (list Layer * CompositionInfo) * MusicMixer * rng :=
  let samples := get_all_samples m custom_samples_dir in
  match samples with
  | [] => (Raise (ValueError "No audio files found"), m, g)
  | _ =>
      let '(categories, m1) := classify_samples m samples in
      let '(available, g1) := available_categories m1 categories g in
      match available with
      | [] => (Ret ([], composition_info m1 []), m1, g1)
      | _ =>
          let actual_layers := Z.min num_layers (Z.of_nat (length available)) in
          match Random.sample available actual_layers g1 with
          | (Ret selected_categories, g2) =>
              let compatible_keys := get_compatible_keys (current_key m1) in
              match build_layers fuel m1 categories compatible_keys selected_categories g2 with
              | (Ret layers, g3) => (Ret (layers, composition_info m1 layers), m1, g3)
              | (Raise e, g3) => (Raise e, m1, g3)
              | (Timeout, g3) => (Timeout, m1, g3)
              end
          | (Raise e, g2) => (Raise e, m1, g2)
          | (Timeout, g2) => (Timeout, m1, g2)
          end
      end
  end.

(** The loop over the layers of [generate_mix_audio], lines 382-395.
    [math.log10] raises [ValueError] on a volume that is not positive. *)
Fixpoint mix_layers (fuel : nat) (layers : list Layer) (duration_ms : Z)
    (mix_audio : AudioSegment) : outcome AudioSegment :=
  match layers with
  | [] => Ret mix_audio
  | layer :: layers' =>
      if Qle_bool (volume layer) 0 then Raise (ValueError "math domain error")
      else
        let audio_with_gain := Pydub.apply_gain (audio layer) in
        match repeat_append fuel Pydub.empty audio_with_gain (inject_Z duration_ms) with
        | None => Timeout
        | Some looped_audio =>
            let looped_audio := Pydub.slice_to looped_audio duration_ms in
            mix_layers fuel layers' duration_ms (Pydub.overlay mix_audio looped_audio)
        end
  end.

(** [generate_mix_audio]; the result pairs the path of the exported file
    with the audio written to it. *)
Definition generate_mix_audio (fuel : nat) (m : MusicMixer) (layers : list Layer)
    (duration_ms : Z) : outcome (string * AudioSegment) :=
  match layers with
  | [] => Raise (ValueError "No layers to mix")
  | _ =>
      match mix_layers fuel layers duration_ms (Pydub.silent duration_ms) with
      | Ret mix_audio =>
          let temp_file :=
            OsPath.join (temp_dir m) ("mix_" +:+ strftime_now env "%H%M%S" +:+ ".wav") in
          Ret (temp_file, mix_audio)
      | Raise e => Raise e
      | Timeout => Timeout
      end
  end.

(** [generate_complete_mix], without the text of
    [_format_composition_info]: the path and audio of the mix and the
    composition descriptor. *)
Definition generate_complete_mix (fuel : nat) (m : MusicMixer) (g : rng)
    (num_layers : Z) (custom_samples_dir : option string)
    : outcome (string * AudioSegment * CompositionInfo) * MusicMixer * rng :=
  match create_multilayer_composition fuel m g num_layers custom_samples_dir with
  | (Ret (layers, info), m1, g1) =>
      match layers with
      | [] => (Raise (ValueError "Could not create composition"), m1, g1)
      | _ =>
          match generate_mix_audio fuel m1 layers 30000 with
          | Ret (audio_path, mix) => (Ret (audio_path, mix, info), m1, g1)
          | Raise e => (Raise e, m1, g1)
          | Timeout => (Timeout, m1, g1)
          end
      end
  | (Raise e, m1, g1) => (Raise e, m1, g1)
  | (Timeout, m1, g1) => (Timeout, m1, g1)
  end.

End Engine.

(** ** The repeat-append loops at frame granularity

    A pydub segment is a run of frames at a frame rate.  [len()] is
    [round(1000 * (frame_count / frame_rate))] and [a + b] brings both
    segments to the higher of the two frame rates and joins their frames.
    [set_frame_rate] returns the segment itself at an unchanged rate and
    leaves a segment without data without data; otherwise the frames go
    through [audioop.ratecv], which is external: [ratecv n r r'] is the
    number of frames it returns for [n] frames taken from rate [r] to rate
    [r'].  The loop target is the number the source compares [len()] with:
    the integer [duration_ms], or the float [ideal_length], a rational
    either way. *)

Module Frames.

Record segment : Type := Segment {
  frame_count : N;
  frame_rate : positive
}.

(** [len(a)]: the quotient is taken exactly and rounded as Python's [round]
    does, to the nearest integer and to the even one at a tie. *)
Definition len (a : segment) : Z :=
  let n := 1000 * Z.of_N (frame_count a) in
  let r := Z.pos (frame_rate a) in
  match 2 * (n mod r) ?= r with
  | Lt => n / r
  | Eq => if Z.even (n / r) then n / r else n / r + 1
  | Gt => n / r + 1
  end.

(** [AudioSegment.empty()]: no frame, at frame rate 1. *)
Definition empty : segment := Segment 0 1.

Section Resampling.

Variable ratecv : N → positive → positive → N.

(** [a.set_frame_rate(r)] *)
Definition set_frame_rate (a : segment) (r : positive) : segment :=
  if Pos.eqb (frame_rate a) r then a
  else if N.eqb (frame_count a) 0 then Segment 0 r
  else Segment (ratecv (frame_count a) (frame_rate a) r) r.

(** [a + b] *)
Definition append (a b : segment) : segment :=
  let r := Pos.max (frame_rate a) (frame_rate b) in
  Segment (frame_count (set_frame_rate a r) + frame_count (set_frame_rate b r)) r.

(** [while len(looped) < target: looped += audio] *)
Fixpoint repeat_append (fuel : nat) (looped audio : segment) (target : Q)
    : option segment :=
  match fuel with
  | O => None
  | S fuel' =>
      if Qlt_bool (inject_Z (len looped)) target
      then repeat_append fuel' (append looped audio) audio target
      else Some looped
  end.

End Resampling.

End Frames.

(** * Vocabulary of the statements

    Predicates, projections and concrete surroundings used to state the
    properties below. *)

(** A library of one drum sample whose decoding and analysis both fail. *)
Definition env_failing : Env := {|
  signal := unit;
  os_walk := fun _ => [("samples", ["kick_808_128bpm.wav"])];
  librosa_load := fun _ => None;
  beat_track := fun _ => None;
  onset_tempo := fun _ => None;
  from_file := fun _ => None;
  respawn := fun _ _ => None;
  mkdtemp := fun prefix => "/tmp/" +:+ prefix +:+ "0";
  strftime_now := fun _ => "000000"
|}.

(** The same library with every file decoding to one second of audio and an
    analysis that reports 64.25 beats per minute. *)
Definition env_one_second : Env := {|
  signal := unit;
  os_walk := fun _ => [("samples", ["kick_808_128bpm.wav"])];
  librosa_load := fun _ => Some tt;
  beat_track := fun _ => Some 64.25%float;
  onset_tempo := fun _ => None;
  from_file := fun _ => Some (Audio 1000 44100);
  respawn := fun a _ => Some a;
  mkdtemp := fun prefix => "/tmp/" +:+ prefix +:+ "0";
  strftime_now := fun _ => "000000"
|}.

(** The draws 0, 1, 2, ... *)
Definition rng_count : rng := Rng N.of_nat 0.

(** Every cached tempo is in the range or is the configured target. *)
Definition bpm_cache_ok (m : MusicMixer) : Prop :=
  map_Forall (fun _ bpm => 80 ≤ bpm ≤ 180 ∨ bpm = target_bpm m) (bpm_cache m).

(** The letter of the relative key. *)
Definition relative_letter (letter : string) : string :=
  if String.eqb letter "A" then "B" else "A".

(** The category the classifier gives to a sample path. *)
Definition sample_category (sample : string) : string :=
  category_of (Py.lower (OsPath.basename sample)).

(** The [(sample, bpm, key)] triples [classify_samples] builds, in input
    order, with the caches threaded from one sample to the next. *)
Fixpoint sample_infos (env : Env) (m : MusicMixer) (samples : list string)
    : list sample_info :=
  match samples with
  | [] => []
  | sample :: samples' =>
      let '(bpm, m1) := get_bpm env m sample in
      let '(key, m2) := get_sample_key m1 sample in
      (sample, bpm, key) :: sample_infos env m2 samples'
  end.

Definition info_path (i : sample_info) : string := i.1.1.

(** A run that exhausts every fuel. *)
Definition diverges {A : Type} (run : nat → outcome A) : Prop :=
  ∀ fuel, run fuel = Timeout.

Definition positive_length (l : Layer) : Prop := (0 < length_ms (audio l))%N.
Definition positive_volume (l : Layer) : Prop := (0 < volume l)%Q.

(** A drum layer of one second at half volume, and the same layer with no
    audio at all. *)
Definition layer_one_second : Layer :=
  MkLayer "drums" "samples/kick.wav" (Audio 1000 44100) 128 None (1 # 2).
Definition layer_zero_length : Layer :=
  MkLayer "drums" "samples/kick.wav" (Audio 0 44100) 128 None (1 # 2).
Definition layer_zero_volume : Layer :=
  MkLayer "drums" "samples/kick.wav" (Audio 1000 44100) 128 None 0.

Definition mixer_one_second : MusicMixer :=
  MusicMixer_init env_one_second "samples" 128 (Some "8A") false.

(** The range a category's volume is drawn from. *)
Definition volume_range (c : string) : Q * Q :=
  default (2 # 10, 7 # 10)%Q (Py.dict_get c volume_ranges).

Definition volume_in_range (l : Layer) : Prop :=
  ((volume_range (category l)).1 <= volume l)%Q
  ∧ (volume l <= (volume_range (category l)).2)%Q.

(** What a run selects: per layer the category, the sample and the volume. *)
Definition selection (l : Layer) : string * string * Q :=
  (category l, sample l, volume l).

Definition selections {A : Type} (o : outcome (list Layer * A))
    : outcome (list (string * string * Q)) :=
  match o with
  | Ret (layers, _) => Ret (map selection layers)
  | Raise e => Raise e
  | Timeout => Timeout
  end.

Definition compatible (k1 k2 : string) : bool :=
  bool_decide (Some k2 ∈ get_compatible_keys (Some k1)).

(** One step of the classification loop on the buckets. *)
Definition add_info (categories : gmap string (list sample_info)) (i : sample_info)
    : gmap string (list sample_info) :=
  <[sample_category (info_path i) :=
      bucket categories (sample_category (info_path i)) ++ [i]]> categories.

(** The engine after the samples have been resolved in turn. *)
Fixpoint resolved_state (env : Env) (m : MusicMixer) (samples : list string)
    : MusicMixer :=
  match samples with
  | [] => m
  | sample :: samples' =>
      resolved_state env (get_sample_key (get_bpm env m sample).2 sample).2 samples'
  end.

Definition cached (m : MusicMixer) (i : sample_info) : Prop :=
  bpm_cache m !! info_path i = Some i.1.2 ∧ key_cache m !! info_path i = Some i.2.

(** The test of lines 331-335: the category is unpitched, or the sample has
    no key, or its key is compatible with the current key. *)
Definition harmonic (c : string) (compatible_keys : list (option string))
    (i : sample_info) : Prop :=
  (if Py.list_mem c ["drums"; "fx"; "other"] then true
   else match i.2 with
        | None => true
        | Some _ => key_in i.2 compatible_keys
        end) = true.

(** Two pads, in 9A and in 3B, under the current key 8A: the layer is the
    pad in 9A. *)
Definition env_two_pads : Env := {|
  signal := unit;
  os_walk := fun _ => [("samples", ["pad 9A.wav"; "pad 3B.wav"; "notes.txt"])];
  librosa_load := fun _ => None;
  beat_track := fun _ => None;
  onset_tempo := fun _ => None;
  from_file := fun _ => Some (Audio 8000 44100);
  respawn := fun a _ => Some a;
  mkdtemp := fun prefix => "/tmp/" +:+ prefix +:+ "0";
  strftime_now := fun _ => "000000"
|}.

(** The keyword lists of the classifier, in the order of its tests. *)
Definition category_keywords : list (string * list string) :=
  [ ("drums", ["kick"; "drum"; "bd"; "sd"; "snare"; "hat"]);
    ("bass", ["bass"; "sub"; "808"; "low"; "bassline"]);
    ("melody", ["melody"; "lead"; "synth"; "pluck"; "arp"]);
    ("harmony", ["chord"; "pad"; "string"; "harmony"; "stabs"]);
    ("fx", ["fx"; "effect"; "impact"; "sweep"; "rise"]);
    ("vocals", ["vocal"; "voice"; "chant"; "sing"; "vox"]);
    ("loops", ["loop"; "groove"; "full"; "mix"]) ].

(** [w] is a substring of [s]; [s] ends in [w]. *)
Definition occurs_in (w s : string) : Prop := ∃ pre post, s = pre +:+ w +:+ post.
Definition ends_with (w s : string) : Prop := ∃ stem, s = stem +:+ w.

(** One of the words occurs in the file name. *)
Definition has_keyword (words : list string) (filename : string) : Prop :=
  ∃ w, w ∈ words ∧ occurs_in w filename.

(** The name of an audio file: lower-cased, it ends in one of the four
    extensions. *)
Definition audio_name (f : string) : Prop :=
  ∃ ext, ext ∈ [".wav"; ".mp3"; ".flac"; ".aiff"] ∧ ends_with ext (Py.lower f).

(** A library of two directories with audio files of every extension among
    other files. *)
Definition env_scan : Env := {|
  signal := unit;
  os_walk := fun d =>
    [(d, ["Kick.WAV"; "notes.txt"; "bass.mp3"; "kick.wav.bak"; "wav"]);
     (d +:+ "/pads", ["pad.flac"; "Lead.Aiff"; "cover.jpg"; "vox.ogg"; "x.aif"])];
  librosa_load := fun _ => None;
  beat_track := fun _ => None;
  onset_tempo := fun _ => None;
  from_file := fun _ => None;
  respawn := fun _ _ => None;
  mkdtemp := fun prefix => "/tmp/" +:+ prefix +:+ "0";
  strftime_now := fun _ => "000000"
|}.

(** A segment of whole milliseconds as a run of frames of one millisecond. *)
Definition whole_ms (a : AudioSegment) : Frames.segment :=
  Frames.Segment (length_ms a) 1000.

(** A resampler that keeps the frame count. *)
Definition ratecv_same : N → positive → positive → N := fun n _ _ => n.

(** A run of a loop that exhausts every fuel. *)
Definition loops_for_ever {A : Type} (run : nat → option A) : Prop :=
  ∀ fuel, run fuel = None.

(** The fuel that lets the loop of [optimize_audio_length] finish at a
    given target tempo, whatever the segment. *)
Definition four_bar_fuel (target_bpm : Z) : nat :=
  S (Z.to_nat (Qceiling (inject_Z 60000 / inject_Z target_bpm * inject_Z 4 * inject_Z 4))).

(** * Properties *)

(** ** Tempo resolution *)

Lemma first_bpm_range (patterns : list Re.regex) (filename : string) (bpm : Z) :
  first_bpm patterns filename = Some bpm → 80 ≤ bpm ≤ 180.
Proof.
  induction patterns as [|pattern patterns IH]; simpl; [done|].
  destruct (Re.search pattern filename) as [g|]; [|done].
  destruct (andb _ _) eqn:E; [|done].
  intros [= <-]. apply andb_true_iff in E. lia.
Qed.

Lemma extract_bpm_from_filename_range (filename : string) (bpm : Z) :
  extract_bpm_from_filename filename = Some bpm → 80 ≤ bpm ≤ 180.
Proof. apply first_bpm_range. Qed.

Lemma min_by_elem (f : Z → float) (best : Z) (l : list Z) : min_by f best l = best ∨ min_by f best l ∈ l.
Proof.
  revert best. induction l as [|x l IH]; intros best; simpl; [by left|].
  destruct (IH (if PrimFloat.ltb (f x) (f best) then x else best)) as [->|H].
  - destruct (PrimFloat.ltb _ _); [right; left | by left].
  - right. by right.
Qed.

Lemma snap_bpm_grid (bpm : float) : snap_bpm bpm ∈ common_bpms.
Proof.
  unfold snap_bpm. set (b := if PrimFloat.ltb bpm _ then _ else _). clearbody b.
  unfold common_bpms at 1.
  match goal with |- min_by ?f ?x ?l ∈ _ => destruct (min_by_elem f x l) as [->|H] end.
  - left.
  - by right.
Qed.

Lemma common_bpms_range (bpm : Z) : bpm ∈ common_bpms → 80 ≤ bpm ≤ 180.
Proof.
  unfold common_bpms. rewrite !elem_of_cons, elem_of_nil. lia.
Qed.

Lemma snap_bpm_range (bpm : float) : 80 ≤ snap_bpm bpm ≤ 180.
Proof. apply common_bpms_range, snap_bpm_grid. Qed.

Lemma analyse_bpm_range (env : Env) (file_path : string) (bpm : Z) :
  analyse_bpm env file_path = Some bpm → 80 ≤ bpm ≤ 180.
Proof.
  unfold analyse_bpm.
  destruct (librosa_load env file_path) as [y|]; [|intros H; discriminate H].
  destruct (beat_track env y) as [f|].
  { intros H. apply (inj Some) in H. rewrite <- H. apply snap_bpm_range. }
  destruct (onset_tempo env y) as [f|]; [|intros H; discriminate H].
  intros H. apply (inj Some) in H. rewrite <- H. apply snap_bpm_range.
Qed.

Lemma resolve_bpm_range (env : Env) (file_path : string) (bpm : Z) :
  resolve_bpm env file_path = Some bpm → 80 ≤ bpm ≤ 180.
Proof.
  unfold resolve_bpm.
  destruct (extract_bpm_from_filename (Py.lower (OsPath.basename file_path)))
    as [b1|] eqn:E1.
  { intros H. apply (inj Some) in H. subst b1.
    by eapply extract_bpm_from_filename_range. }
  destruct (extract_bpm_from_filename
              (Py.lower (OsPath.basename (OsPath.dirname file_path))))
    as [b2|] eqn:E2.
  { intros H. apply (inj Some) in H. subst b2.
    by eapply extract_bpm_from_filename_range. }
  apply analyse_bpm_range.
Qed.

Lemma bpm_cache_ok_init (env : Env) (d : string) (t : Z) (k : option string) (e : bool) : bpm_cache_ok (MusicMixer_init env d t k e).
Proof. apply map_Forall_empty. Qed.

(** C1, as stated, fails: with a configured target tempo of 60 and a file
    that cannot be decoded, [get_bpm] returns 60. *)
Lemma get_bpm_default_out_of_range :
  let m := MusicMixer_init env_failing "samples" 60 (Some "8A") false in
  (get_bpm env_failing m "samples/pad.wav").1 = 60
  ∧ ¬ (80 ≤ (get_bpm env_failing m "samples/pad.wav").1 ≤ 180).
Proof. vm_compute. split; [done|]. intros [H _]. by apply H. Qed.

(** C1 (amended): the tempo returned by [get_bpm] lies in [80, 180] or is
    the configured target tempo, so it lies in [80, 180] whenever the target
    does; this holds for values read back from the cache too, because the
    cache keeps the invariant [bpm_cache_ok], which holds of a new engine. *)
Theorem get_bpm_range (env : Env) (m : MusicMixer) (file_path : string) :
  bpm_cache_ok m →
  let r := get_bpm env m file_path in
  (80 ≤ r.1 ≤ 180 ∨ r.1 = target_bpm m)
  ∧ (80 ≤ target_bpm m ≤ 180 → 80 ≤ r.1 ≤ 180)
  ∧ target_bpm r.2 = target_bpm m
  ∧ bpm_cache_ok r.2.
Proof.
  intros Hok. unfold get_bpm.
  destruct (bpm_cache m !! file_path) as [bpm|] eqn:Hc; simpl.
  - pose proof (Hok _ _ Hc) as Hb. simpl in Hb. repeat split; [done|lia|lia|done].
  - assert (Hb : 80 ≤ match resolve_bpm env file_path with
                        | Some bpm => bpm | None => target_bpm m end ≤ 180
                 ∨ match resolve_bpm env file_path with
                   | Some bpm => bpm | None => target_bpm m end = target_bpm m).
    { destruct (resolve_bpm env file_path) eqn:E; [left; by eapply resolve_bpm_range|by right]. }
    repeat split; [done|lia|lia|].
    unfold bpm_cache_ok. simpl. by apply map_Forall_insert_2.
Qed.

Lemma get_bpm_range_witness :
  let m := MusicMixer_init env_one_second "samples" 128 (Some "8A") false in
  let r := get_bpm env_one_second m "samples/pad.wav" in
  (80 ≤ r.1 ≤ 180 ∨ r.1 = target_bpm m)
  ∧ (80 ≤ target_bpm m ≤ 180 → 80 ≤ r.1 ≤ 180)
  ∧ target_bpm r.2 = target_bpm m
  ∧ bpm_cache_ok r.2.
Proof.
  exact (get_bpm_range env_one_second _ "samples/pad.wav"
           (bpm_cache_ok_init env_one_second "samples" 128 (Some "8A") false)).
Defined.

(** ** The Camelot wheel *)

(** The keys of the wheel are the twenty-four codes [1A] ... [12B]. *)
Lemma camelot_wheel_keys (k : string) :
  Py.dict_mem k CAMELOT_WHEEL = true →
  ∃ (n : Z) (letter : string),
    1 ≤ n ≤ 12 ∧ (letter = "A" ∨ letter = "B") ∧ k = Py.str n +:+ letter.
Proof.
  unfold Py.dict_mem, CAMELOT_WHEEL. cbn [Py.dict_get].
  assert (Hw : ∀ (n : Z) (letter : string),
             1 ≤ n ≤ 12 → letter = "A" ∨ letter = "B" →
             ∃ (n' : Z) (letter' : string),
               1 ≤ n' ≤ 12 ∧ (letter' = "A" ∨ letter' = "B")
               ∧ Py.str n +:+ letter = Py.str n' +:+ letter').
  { intros n letter Hn Hl. by exists n, letter. }
  repeat match goal with
  | |- context [String.eqb ?a k] =>
      destruct (String.eqb_spec a k) as [<-|_];
        [ intros _;
          first
            [ apply (Hw 1 "A"); [lia|by left] | apply (Hw 2 "A"); [lia|by left]
            | apply (Hw 3 "A"); [lia|by left] | apply (Hw 4 "A"); [lia|by left]
            | apply (Hw 5 "A"); [lia|by left] | apply (Hw 6 "A"); [lia|by left]
            | apply (Hw 7 "A"); [lia|by left] | apply (Hw 8 "A"); [lia|by left]
            | apply (Hw 9 "A"); [lia|by left] | apply (Hw 10 "A"); [lia|by left]
            | apply (Hw 11 "A"); [lia|by left] | apply (Hw 12 "A"); [lia|by left]
            | apply (Hw 1 "B"); [lia|by right] | apply (Hw 2 "B"); [lia|by right]
            | apply (Hw 3 "B"); [lia|by right] | apply (Hw 4 "B"); [lia|by right]
            | apply (Hw 5 "B"); [lia|by right] | apply (Hw 6 "B"); [lia|by right]
            | apply (Hw 7 "B"); [lia|by right] | apply (Hw 8 "B"); [lia|by right]
            | apply (Hw 9 "B"); [lia|by right] | apply (Hw 10 "B"); [lia|by right]
            | apply (Hw 11 "B"); [lia|by right] | apply (Hw 12 "B"); [lia|by right] ]
        | ]
  end.
  intros H; discriminate H.
Qed.

Lemma one_to_twelve (n : Z) :
  1 ≤ n ≤ 12 →
  n = 1 ∨ n = 2 ∨ n = 3 ∨ n = 4 ∨ n = 5 ∨ n = 6 ∨
  n = 7 ∨ n = 8 ∨ n = 9 ∨ n = 10 ∨ n = 11 ∨ n = 12.
Proof. lia. Qed.

Lemma get_compatible_keys_wheel (n : Z) (letter : string) :
  1 ≤ n ≤ 12 → letter = "A" ∨ letter = "B" →
  get_compatible_keys (Some (Py.str n +:+ letter)) =
    [ Some (Py.str n +:+ letter);
      Some (Py.str n +:+ relative_letter letter);
      Some (Py.str (if n =? 12 then 1 else n + 1) +:+ letter);
      Some (Py.str (if n =? 1 then 12 else n - 1) +:+ letter) ].
Proof.
  intros Hn Hl. apply one_to_twelve in Hn.
  destruct Hl as [-> | ->];
    repeat (destruct Hn as [-> | Hn]; [by vm_compute|]); subst n; by vm_compute.
Qed.

(** C3: for a key of the wheel, [get_compatible_keys] returns four keys:
    the key, its relative (same number, other letter) and the two
    neighbours on the same letter, wrapping between 12 and 1; so
    [get_compatible_keys "8A"] is the set 8A, 8B, 7A, 9A and
    [get_compatible_keys "1A"] holds 12A.  For an absent or unrecognised key
    it returns the key alone.  The result never has more than four
    entries. *)
Theorem get_compatible_keys_spec :
  (∀ k : string, Py.dict_mem k CAMELOT_WHEEL = true →
     ∃ (n : Z) (letter : string),
       1 ≤ n ≤ 12 ∧ (letter = "A" ∨ letter = "B") ∧ k = Py.str n +:+ letter
       ∧ get_compatible_keys (Some k) =
           [ Some k;
             Some (Py.str n +:+ relative_letter letter);
             Some (Py.str (if n =? 12 then 1 else n + 1) +:+ letter);
             Some (Py.str (if n =? 1 then 12 else n - 1) +:+ letter) ])
  ∧ (∀ key : option string, (length (get_compatible_keys key) ≤ 4)%nat)
  ∧ get_compatible_keys (Some "8A") ≡ₚ [Some "8A"; Some "8B"; Some "7A"; Some "9A"]
  ∧ Some "12A" ∈ get_compatible_keys (Some "1A")
  ∧ get_compatible_keys None = [None]
  ∧ (∀ k : string, Py.dict_mem k CAMELOT_WHEEL = false →
       get_compatible_keys (Some k) = [Some k]).
Proof.
  split; [|split; [|split; [|split; [|split]]]].
  - intros k Hk. destruct (camelot_wheel_keys k Hk) as (n & letter & Hn & Hl & ->).
    exists n, letter. split; [done|]. split; [done|]. split; [done|].
    by apply get_compatible_keys_wheel.
  - intros [k|]; simpl; [|lia].
    destruct (Py.dict_mem k CAMELOT_WHEEL); simpl; lia.
  - vm_compute. apply perm_skip, perm_skip, perm_swap.
  - vm_compute. do 3 right. left.
  - done.
  - intros k Hk. simpl. by rewrite Hk.
Qed.

(** ** Key extraction *)

(** C7 fails on the code at its first example: in [lead_8A.wav] the
    underscore is a word character, so [\b] finds no boundary before the
    digit and none of the three patterns matches; the table has no entry
    for the name either. *)
Theorem extract_key_lead_8A :
  extract_key_from_filename "lead_8A.wav" = None
  ∧ extract_key_from_filename (Py.lower "lead_8A.wav") = None
  ∧ Re.search (Re.cat [Re.WordB; camelot_group; Re.WordB]) "lead_8A.wav" = None
  ∧ extract_key_from_filename "lead 8A.wav" = Some "8A"
  ∧ extract_key_from_filename (Py.lower "bass_Cmin.wav") = Some "5A".
Proof. by vm_compute. Qed.

(** ** Substrings *)

Lemma startswith_prefix (w s : string) :
  Py.startswith w s = true ↔ ∃ post, s = w +:+ post.
Proof.
  revert s. induction w as [|a w IH]; intros s; simpl.
  - split; [intros _; by exists s|done].
  - destruct s as [|b s].
    + split; [done|]. intros [post H]. discriminate H.
    + rewrite andb_true_iff, IH. split.
      * intros [Hab [post ->]]. apply Ascii.eqb_eq in Hab as ->. by exists post.
      * intros [post H]. injection H as -> ->.
        split; [apply Ascii.eqb_refl|by exists post].
Qed.

Lemma contains_occurs (w s : string) : Py.contains w s = true ↔ occurs_in w s.
Proof.
  split.
  - induction s as [|c s IH]; simpl; rewrite orb_true_iff.
    + intros [H|H]; [|done].
      apply startswith_prefix in H as [post ->]. by exists "", post.
    + intros [H|H].
      * apply startswith_prefix in H as [post ->]. by exists "", post.
      * destruct (IH H) as (pre & post & ->). by exists (String c pre), post.
  - intros (pre & post & ->). induction pre as [|c pre IH].
    + destruct (w +:+ post) eqn:E; simpl.
      * destruct w; [done|discriminate E].
      * apply orb_true_iff. left. apply startswith_prefix. by exists post.
    + simpl. rewrite IH. apply orb_true_r.
Qed.

Lemma any_in_has_keyword (words : list string) (s : string) :
  Py.any_in words s = true ↔ has_keyword words s.
Proof.
  unfold Py.any_in, has_keyword. rewrite existsb_exists. split.
  - intros (w & Hw & H). exists w.
    split; [by apply list_elem_of_In|by apply contains_occurs].
  - intros (w & Hw & H). exists w.
    split; [by apply list_elem_of_In|by apply contains_occurs].
Qed.

Lemma substring_all (w : string) : String.substring 0 (String.length w) w = w.
Proof. induction w as [|c w IH]; simpl; [done|]. by rewrite IH. Qed.

Lemma substring_suffix (stem w : string) :
  String.substring (String.length stem) (String.length w) (stem +:+ w) = w.
Proof. induction stem as [|c stem IH]; simpl; [apply substring_all|done]. Qed.

Lemma string_length_app (a b : string) :
  String.length (a +:+ b) = (String.length a + String.length b)%nat.
Proof. induction a as [|c a IH]; simpl; [done|]. by rewrite IH. Qed.

Lemma substring_split (s : string) (n : nat) :
  (n ≤ String.length s)%nat →
  s = String.substring 0 n s +:+ String.substring n (String.length s - n) s.
Proof.
  revert n. induction s as [|c s IH]; intros n Hn; simpl in *.
  - destruct n; [done|lia].
  - destruct n as [|n]; simpl.
    + f_equal. by rewrite substring_all.
    + change (String c s = String c (String.substring 0 n s
                +:+ String.substring n (String.length s - n) s)).
      f_equal. apply IH. lia.
Qed.

Lemma endswith_suffix (w s : string) : Py.endswith w s = true ↔ ends_with w s.
Proof.
  unfold Py.endswith, ends_with. rewrite andb_true_iff. split.
  - intros [Hle Heq]. apply Nat.leb_le in Hle. apply String.eqb_eq in Heq.
    exists (String.substring 0 (String.length s - String.length w) s).
    pose proof (substring_split s (String.length s - String.length w)) as H.
    replace (String.length s - (String.length s - String.length w))%nat
      with (String.length w) in H by lia.
    rewrite Heq in H. apply H. lia.
  - intros [stem ->]. rewrite string_length_app. split; [apply Nat.leb_le; lia|].
    apply String.eqb_eq.
    replace (String.length stem + String.length w - String.length w)%nat
      with (String.length stem) by lia.
    apply substring_suffix.
Qed.

(** ** Classification *)

(** A keyword list that matches decides, when no list before it matches. *)
Lemma category_of_first_match (filename : string) (i : nat) (c : string)
    (words : list string) :
  category_keywords !! i = Some (c, words) →
  has_keyword words filename →
  (∀ (j : nat) (c' : string) (words' : list string),
     (j < i)%nat → category_keywords !! j = Some (c', words') →
     ¬ has_keyword words' filename) →
  category_of filename = c.
Proof.
  intros Hi Hw Hprev.
  apply any_in_has_keyword in Hw.
  assert (Hskip : ∀ (j : nat) (c' : string) (words' : list string),
            (j < i)%nat → category_keywords !! j = Some (c', words') →
            Py.any_in words' filename = false).
  { intros j c' words' Hj Hl. apply not_true_is_false.
    rewrite any_in_has_keyword. by apply (Hprev j c'). }
  clear Hprev. unfold category_of.
  destruct i as [|[|[|[|[|[|[|i]]]]]]]; simpl in Hi; [..|discriminate Hi];
    injection Hi as <- <-;
    try rewrite (Hskip 0%nat _ _ ltac:(lia) eq_refl);
    try rewrite (Hskip 1%nat _ _ ltac:(lia) eq_refl);
    try rewrite (Hskip 2%nat _ _ ltac:(lia) eq_refl);
    try rewrite (Hskip 3%nat _ _ ltac:(lia) eq_refl);
    try rewrite (Hskip 4%nat _ _ ltac:(lia) eq_refl);
    try rewrite (Hskip 5%nat _ _ ltac:(lia) eq_refl);
    by rewrite Hw.
Qed.

(** A file name that no keyword list matches is in [other]. *)
Lemma category_of_no_match (filename : string) :
  (∀ (c : string) (words : list string),
     (c, words) ∈ category_keywords → ¬ has_keyword words filename) →
  category_of filename = "other".
Proof.
  intros Hnone.
  assert (Hskip : ∀ (j : nat) (c : string) (words : list string),
            category_keywords !! j = Some (c, words) →
            Py.any_in words filename = false).
  { intros j c words Hl. apply not_true_is_false.
    rewrite any_in_has_keyword. apply (Hnone c).
    by apply list_elem_of_lookup_2 with j. }
  unfold category_of.
  rewrite (Hskip 0%nat _ _ eq_refl), (Hskip 1%nat _ _ eq_refl),
    (Hskip 2%nat _ _ eq_refl), (Hskip 3%nat _ _ eq_refl),
    (Hskip 4%nat _ _ eq_refl), (Hskip 5%nat _ _ eq_refl),
    (Hskip 6%nat _ _ eq_refl).
  done.
Qed.

Lemma category_of_priority (filename : string) :
  category_of filename ∈ priority_order.
Proof.
  unfold category_of, priority_order.
  repeat match goal with
  | |- context [Py.any_in ?ws filename] => destruct (Py.any_in ws filename)
  end; repeat first [by left | right].
Qed.

Lemma sample_infos_paths (env : Env) (m : MusicMixer) (samples : list string) :
  map info_path (sample_infos env m samples) = samples.
Proof.
  revert m. induction samples as [|s samples IH]; intros m; simpl; [done|].
  destruct (get_bpm env m s) as [bpm m1].
  destruct (get_sample_key m1 s) as [key m2]. simpl. by rewrite IH.
Qed.

Lemma bucket_insert (categories : gmap string (list sample_info))
    (c c' : string) (l : list sample_info) :
  bucket (<[c := l]> categories) c' = if decide (c = c') then l else bucket categories c'.
Proof.
  unfold bucket. rewrite lookup_insert. by destruct (decide (c = c')).
Qed.

Lemma classify_loop_bucket (env : Env) (samples : list string) (m : MusicMixer)
    (categories : gmap string (list sample_info)) (c : string) :
  bucket (classify_loop env m samples categories).1 c =
    bucket categories c
    ++ filter (fun i => sample_category (info_path i) = c) (sample_infos env m samples).
Proof.
  revert m categories.
  induction samples as [|s samples IH]; intros m categories; simpl.
  { by rewrite app_nil_r. }
  destruct (get_bpm env m s) as [bpm m1].
  destruct (get_sample_key m1 s) as [key m2].
  rewrite IH, bucket_insert. fold (sample_category s).
  rewrite filter_cons. change (info_path (s, bpm, key)) with s.
  destruct (decide (sample_category s = c)) as [->|Hne].
  - by rewrite <- app_assoc.
  - done.
Qed.

Lemma classify_loop_dom (env : Env) (samples : list string) (m : MusicMixer)
    (categories : gmap string (list sample_info)) (c : string) :
  is_Some ((classify_loop env m samples categories).1 !! c) →
  is_Some (categories !! c) ∨ c ∈ priority_order.
Proof.
  revert m categories.
  induction samples as [|s samples IH]; intros m categories; simpl; [by left|].
  destruct (get_bpm env m s) as [bpm m1].
  destruct (get_sample_key m1 s) as [key m2].
  intros H. apply IH in H as [H|H]; [|by right].
  rewrite lookup_insert in H. destruct (decide _) as [<-|]; [|by left].
  right. apply category_of_priority.
Qed.

Lemma priority_order_NoDup : NoDup priority_order.
Proof. apply (bool_decide_unpack (NoDup priority_order)). by vm_compute. Qed.

(** Splitting a list by a label that takes its values in a duplicate-free
    list of labels rearranges it. *)
Lemma concat_filter_partition {A : Type} (f : A → string) (cs : list string)
    (l : list A) :
  NoDup cs → (∀ x, x ∈ l → f x ∈ cs) →
  concat (map (fun c => filter (fun x => f x = c) l) cs) ≡ₚ l.
Proof.
  intros Hnd. induction l as [|x l IH]; intros Hin.
  { clear. induction cs as [|c cs IH]; simpl; [done|]. by rewrite IH. }
  assert (Hx : f x ∈ cs) by (apply Hin; left).
  trans (x :: concat (map (fun c => filter (fun y => f y = c) l) cs)).
  2: { apply perm_skip, IH. intros y Hy. apply Hin. by right. }
  clear IH Hin. revert Hx.
  induction Hnd as [|c cs Hc Hnd IHcs]; intros Hx; [by apply elem_of_nil in Hx|].
  simpl. rewrite filter_cons.
  destruct (decide (f x = c)) as [Hfc|Hfc].
  - simpl. apply perm_skip. apply Permutation_app_head.
    assert (Hno : f x ∉ cs) by by rewrite Hfc.
    clear -Hno. induction cs as [|c' cs IH]; simpl; [done|].
    rewrite filter_cons. destruct (decide (f x = c')) as [Hfc|_].
    + exfalso. apply Hno. rewrite Hfc. left.
    + rewrite IH; [done|]. intros H. apply Hno. by right.
  - apply elem_of_cons in Hx as [Hx|Hx]; [done|].
    rewrite (IHcs Hx). by rewrite Permutation_middle.
Qed.

(** The bucket of a category holds the samples of that category, in input
    order. *)
Lemma classify_samples_bucket (env : Env) (m : MusicMixer) (samples : list string)
    (c : string) :
  bucket (classify_samples env m samples).1 c =
    filter (fun i => sample_category (info_path i) = c) (sample_infos env m samples).
Proof.
  unfold classify_samples.
  rewrite classify_loop_bucket. unfold bucket at 1. by rewrite lookup_empty.
Qed.

Lemma classify_samples_bucket_paths (env : Env) (m : MusicMixer)
    (samples : list string) (c : string) :
  map info_path (bucket (classify_samples env m samples).1 c) =
    filter (fun sample => sample_category sample = c) samples.
Proof.
  rewrite classify_samples_bucket.
  rewrite <- (sample_infos_paths env m samples) at 2.
  generalize (sample_infos env m samples). intros l.
  induction l as [|i l IH]; [done|].
  rewrite filter_cons. simpl. rewrite filter_cons.
  destruct (decide (sample_category (info_path i) = c)); simpl; by rewrite IH.
Qed.

(** C6: every sample gets one of the eight categories.  The category is
    decided by the lower-cased base name of the sample: the keyword lists
    are tried in the fixed order drums, bass, melody, harmony, fx, vocals,
    loops, the first list with a word that occurs in the name wins, and a
    name in which no word of any list occurs is in [other].  The bucket of
    a category holds exactly the samples of that category, in input order,
    there is no bucket outside the eight, and the buckets together are a
    rearrangement of the input: nothing is dropped or counted twice.
    [kick_808_128bpm.wav] is a drum sample although it contains the bass
    keyword 808. *)
Theorem classify_samples_partition (env : Env) (m : MusicMixer) (samples : list string) :
  let categories := (classify_samples env m samples).1 in
  (∀ sample, sample_category sample ∈ priority_order)
  ∧ (∀ c, map info_path (bucket categories c) =
            filter (fun sample => sample_category sample = c) samples)
  ∧ (∀ c, is_Some (categories !! c) → c ∈ priority_order)
  ∧ concat (map (fun c => map info_path (bucket categories c)) priority_order) ≡ₚ samples
  ∧ length (concat (map (bucket categories) priority_order)) = length samples
  ∧ category_of (Py.lower "kick_808_128bpm.wav") = "drums"
  ∧ Py.any_in ["bass"; "sub"; "808"; "low"; "bassline"] "kick_808_128bpm.wav" = true
  ∧ (∀ (sample : string) (i : nat) (c : string) (words : list string),
       category_keywords !! i = Some (c, words) →
       has_keyword words (Py.lower (OsPath.basename sample)) →
       (∀ (j : nat) (c' : string) (words' : list string),
          (j < i)%nat → category_keywords !! j = Some (c', words') →
          ¬ has_keyword words' (Py.lower (OsPath.basename sample))) →
       sample_category sample = c)
  ∧ (∀ sample : string,
       (∀ (c : string) (words : list string),
          (c, words) ∈ category_keywords →
          ¬ has_keyword words (Py.lower (OsPath.basename sample))) →
       sample_category sample = "other").
Proof.
  intros categories.
  assert (Hb : ∀ c, bucket categories c =
                    filter (fun i => sample_category (info_path i) = c)
                           (sample_infos env m samples))
    by (intros c; apply classify_samples_bucket).
  assert (Hp : ∀ c, map info_path (bucket categories c) =
                    filter (fun sample => sample_category sample = c) samples)
    by (intros c; apply classify_samples_bucket_paths).
  split; [intros sample; apply category_of_priority|].
  split; [done|].
  split.
  { intros c Hc. unfold categories, classify_samples in Hc.
    apply classify_loop_dom in Hc as [Hc|Hc]; [|done].
    rewrite lookup_empty in Hc. by destruct Hc. }
  split.
  { erewrite map_ext; [|intros c; apply Hp].
    apply concat_filter_partition; [apply priority_order_NoDup|].
    intros x _. apply category_of_priority. }
  split.
  { erewrite map_ext; [|intros c; apply Hb].
    rewrite (concat_filter_partition (fun i => sample_category (info_path i))
               priority_order (sample_infos env m samples) priority_order_NoDup).
    - rewrite <- (sample_infos_paths env m samples) at 2. by rewrite length_map.
    - intros x _. apply category_of_priority. }
  split; [by vm_compute|]. split; [by vm_compute|].
  split.
  { intros sample i c words Hi Hw Hprev.
    by apply (category_of_first_match _ i c words). }
  intros sample. apply category_of_no_match.
Qed.

Lemma classify_samples_partition_witness :
  sample_category "samples/kick_808_128bpm.wav" = "drums"
  ∧ sample_category "samples/take_01.wav" = "other".
Proof.
  pose proof (classify_samples_partition env_failing
                (MusicMixer_init env_failing "samples" 128 None false) []) as H.
  cbv zeta in H. destruct H as (_ & _ & _ & _ & _ & _ & _ & Hfirst & Hother).
  split.
  - apply (Hfirst "samples/kick_808_128bpm.wav" 0%nat "drums"
             ["kick"; "drum"; "bd"; "sd"; "snare"; "hat"]).
    + reflexivity.
    + exists "kick". split; [left|]. by exists "", "_808_128bpm.wav".
    + intros j c' words' Hj. lia.
  - apply Hother. intros c words Hin. rewrite <- any_in_has_keyword.
    repeat (apply elem_of_cons in Hin as [Hin|Hin];
            [injection Hin as -> ->; by vm_compute|]).
    by apply elem_of_nil in Hin.
Defined.

(** ** The repeat-append loops *)

Lemma Qlt_bool_true (a b : Q) : Qlt_bool a b = true ↔ (a < b)%Q.
Proof.
  unfold Qlt_bool. rewrite negb_true_iff.
  split.
  - intros H. apply Qnot_le_lt. intros Hle. apply Qle_bool_iff in Hle. congruence.
  - intros H. destruct (Qle_bool b a) eqn:E; [|done].
    apply Qle_bool_iff in E. by apply Qlt_not_le in H.
Qed.

Lemma Qlt_bool_false (a b : Q) : Qlt_bool a b = false ↔ (b <= a)%Q.
Proof.
  unfold Qlt_bool. rewrite negb_false_iff. apply Qle_bool_iff.
Qed.

(** An integer is below a rational exactly when it is below its ceiling. *)
Lemma inject_Z_lt_ceiling (z : Z) (q : Q) : (inject_Z z < q)%Q ↔ z < Qceiling q.
Proof.
  split.
  - intros H. rewrite Zlt_Qlt. eapply Qlt_le_trans; [exact H|apply Qle_ceiling].
  - intros H. apply Qle_lt_trans with (inject_Z (Qceiling q - 1)).
    + rewrite <- Zle_Qle. lia.
    + apply Qceiling_lt.
Qed.

Lemma len_Q_lt (a : AudioSegment) (target : Q) :
  Qlt_bool (len_Q a) target = true ↔ Z.of_N (length_ms a) < Qceiling target.
Proof. rewrite Qlt_bool_true. apply inject_Z_lt_ceiling. Qed.

(** With a segment of positive length the loop stops within
    [ceiling target - len looped] rounds, and more fuel changes nothing. *)
Lemma repeat_append_terminates (audio : AudioSegment) (target : Q) (fuel : nat)
    (looped : AudioSegment) :
  (0 < length_ms audio)%N →
  (Z.to_nat (Qceiling target - Z.of_N (length_ms looped)) < fuel)%nat →
  ∃ r, repeat_append fuel looped audio target = Some r
       ∧ Qlt_bool (len_Q r) target = false
       ∧ (length_ms looped ≤ length_ms r)%N.
Proof.
  intros Hpos. revert looped.
  induction fuel as [|fuel IH]; intros looped Hfuel; [lia|].
  simpl. destruct (Qlt_bool (len_Q looped) target) eqn:E.
  - apply len_Q_lt in E.
    destruct (IH (Pydub.concat looped audio)) as (r & Hr & Hstop & Hlen).
    { simpl. lia. }
    exists r. repeat split; [done|done|]. simpl in Hlen. lia.
  - exists looped. repeat split; [done|lia].
Qed.

(** With a segment of length zero, which for a segment of whole
    milliseconds is one without audio, a loop that starts never stops. *)
Lemma repeat_append_diverges (audio : AudioSegment) (target : Q) (fuel : nat)
    (looped : AudioSegment) :
  length_ms audio = 0%N →
  Qlt_bool (len_Q looped) target = true →
  repeat_append fuel looped audio target = None.
Proof.
  intros Hzero. revert looped.
  induction fuel as [|fuel IH]; intros looped Hlt; [done|].
  simpl. rewrite Hlt. apply IH.
  unfold len_Q in *. simpl. rewrite Hzero. by rewrite N.add_0_r.
Qed.

(** The loop does not run when the target is not above the start. *)
Lemma repeat_append_skip (audio : AudioSegment) (target : Q) (fuel : nat)
    (looped : AudioSegment) :
  Qlt_bool (len_Q looped) target = false →
  repeat_append (S fuel) looped audio target = Some looped.
Proof. intros H. simpl. by rewrite H. Qed.

Lemma ideal_length_pos (target_bpm : Z) :
  0 < target_bpm →
  (0 < inject_Z 60000 / inject_Z target_bpm * inject_Z 4 * inject_Z 4)%Q.
Proof.
  intros Ht.
  assert (H0 : (0 < inject_Z target_bpm)%Q) by (rewrite <- (Zlt_Qlt 0); done).
  assert (H1 : (0 < inject_Z 60000 / inject_Z target_bpm)%Q).
  { apply Qlt_shift_div_l; [done|]. rewrite Qmult_0_l. done. }
  assert (H2 : (0 < inject_Z 60000 / inject_Z target_bpm * inject_Z 4)%Q).
  { rewrite <- (Qmult_0_l (inject_Z 4)). apply Qmult_lt_compat_r; done. }
  rewrite <- (Qmult_0_l (inject_Z 4)). apply Qmult_lt_compat_r; done.
Qed.

Lemma ideal_length_neg (target_bpm : Z) :
  target_bpm < 0 →
  (inject_Z 60000 / inject_Z target_bpm * inject_Z 4 * inject_Z 4 < 0)%Q.
Proof.
  intros Ht. destruct target_bpm as [|p|p]; try lia.
  unfold Qlt, Qdiv, Qmult, Qinv, inject_Z. simpl. lia.
Qed.

Lemma optimize_audio_length_terminates (audio : AudioSegment) (target_bpm : Z) :
  (0 < length_ms audio)%N →
  ∃ fuel, ∀ fuel', (fuel ≤ fuel')%nat →
    optimize_audio_length fuel' audio target_bpm ≠ Timeout.
Proof.
  intros Hpos. unfold optimize_audio_length.
  set (ideal := (inject_Z 60000 / inject_Z target_bpm * inject_Z 4 * inject_Z 4)%Q).
  exists (S (Z.to_nat (Qceiling ideal))). intros fuel' Hfuel.
  destruct (target_bpm =? 0); [done|].
  destruct (Qlt_bool (len_Q audio) ideal); [|done].
  destruct (repeat_append_terminates audio ideal fuel' Pydub.empty Hpos)
    as (r & -> & _); [simpl; lia|done].
Qed.

(** ** Mix assembly *)

Lemma positive_volume_gain (l : Layer) :
  positive_volume l → Qle_bool (volume l) 0 = false.
Proof.
  intros H. destruct (Qle_bool (volume l) 0) eqn:E; [|done].
  apply Qle_bool_iff in E. by apply Qlt_not_le in H.
Qed.

(** One round of the layer loop: looping reaches the duration and the
    slice cuts the result to it. *)
Lemma loop_and_truncate (a : AudioSegment) (duration_ms : Z) (fuel : nat) :
  (0 < length_ms a)%N → 0 ≤ duration_ms → (Z.to_nat duration_ms < fuel)%nat →
  ∃ looped, repeat_append fuel Pydub.empty a (inject_Z duration_ms) = Some looped
            ∧ duration_ms ≤ Z.of_N (length_ms looped)
            ∧ Z.of_N (length_ms (Pydub.slice_to looped duration_ms)) = duration_ms.
Proof.
  intros Hpos Hd Hfuel.
  destruct (repeat_append_terminates a (inject_Z duration_ms) fuel Pydub.empty Hpos)
    as (r & Hr & Hstop & _).
  { rewrite Qceiling_Z. simpl. lia. }
  exists r. split; [done|].
  apply Qlt_bool_false in Hstop. unfold len_Q in Hstop. rewrite <- Zle_Qle in Hstop.
  split; [done|]. unfold Pydub.slice_to. simpl.
  destruct (Z.ltb_spec duration_ms 0); lia.
Qed.

Lemma mix_layers_returns (layers : list Layer) (duration_ms : Z) (fuel : nat)
    (mix_audio : AudioSegment) :
  Forall positive_length layers → Forall positive_volume layers →
  (Z.to_nat duration_ms < fuel)%nat →
  ∃ r, mix_layers fuel layers duration_ms mix_audio = Ret r
       ∧ length_ms r = length_ms mix_audio.
Proof.
  intros Hlen Hvol Hfuel. revert mix_audio.
  induction layers as [|l layers IH]; intros mix_audio; simpl; [by exists mix_audio|].
  apply Forall_cons in Hlen as [Hl Hlen]. apply Forall_cons in Hvol as [Hv Hvol].
  rewrite (positive_volume_gain l Hv).
  destruct (repeat_append_terminates (Pydub.apply_gain (audio l))
              (inject_Z duration_ms) fuel Pydub.empty Hl) as (r & -> & _).
  { rewrite Qceiling_Z. simpl. lia. }
  destruct (IH Hlen Hvol (Pydub.overlay mix_audio (Pydub.slice_to r duration_ms)))
    as (r' & -> & Hr').
  by exists r'.
Qed.

Lemma mix_layers_no_timeout (layers : list Layer) (duration_ms : Z) (fuel : nat)
    (mix_audio : AudioSegment) :
  Forall positive_length layers →
  (Z.to_nat duration_ms < fuel)%nat →
  mix_layers fuel layers duration_ms mix_audio ≠ Timeout.
Proof.
  intros Hlen Hfuel. revert mix_audio.
  induction layers as [|l layers IH]; intros mix_audio; simpl; [done|].
  apply Forall_cons in Hlen as [Hl Hlen].
  destruct (Qle_bool (volume l) 0); [done|].
  destruct (repeat_append_terminates (Pydub.apply_gain (audio l))
              (inject_Z duration_ms) fuel Pydub.empty Hl) as (r & -> & _).
  { rewrite Qceiling_Z. simpl. lia. }
  by apply IH.
Qed.

Lemma mix_layers_diverges (layers : list Layer) (duration_ms : Z) (fuel : nat)
    (mix_audio : AudioSegment) :
  0 < duration_ms → Forall positive_volume layers →
  Exists (fun l => length_ms (audio l) = 0%N) layers →
  mix_layers fuel layers duration_ms mix_audio = Timeout.
Proof.
  intros Hd Hvol Hex. revert mix_audio.
  induction layers as [|l layers IH]; intros mix_audio; [by apply Exists_nil in Hex|].
  simpl. apply Forall_cons in Hvol as [Hv Hvol].
  rewrite (positive_volume_gain l Hv).
  destruct (N.eq_dec (length_ms (audio l)) 0%N) as [Hz|Hnz].
  - rewrite repeat_append_diverges; [done|done|].
    apply Qlt_bool_true. unfold len_Q. simpl. by rewrite <- (Zlt_Qlt 0).
  - apply Exists_cons in Hex as [Hex|Hex]; [done|].
    destruct (repeat_append _ _ _ _); [|done]. by apply IH.
Qed.

(** C2, as stated, fails: a layer whose audio has length zero keeps the
    loop of [generate_mix_audio] running for ever, and a layer of volume
    zero makes [math.log10] raise. *)
Lemma generate_mix_audio_bad_layers :
  diverges (fun fuel =>
    generate_mix_audio env_one_second fuel mixer_one_second [layer_zero_length] 30000)
  ∧ generate_mix_audio env_one_second 1 mixer_one_second [layer_zero_volume] 30000
    = Raise (ValueError "math domain error").
Proof.
  split; [|done].
  intros fuel.
  assert (H : mix_layers fuel [layer_zero_length] 30000 (Pydub.silent 30000) = Timeout).
  { apply mix_layers_diverges; [lia| |].
    - apply Forall_cons. split; [done|apply Forall_nil_2].
    - by apply Exists_cons_hd. }
  unfold generate_mix_audio. by rewrite H.
Qed.

(** C2 (amended): [generate_mix_audio] raises on an empty layer list; for a
    non-empty list whose layers all have audio of positive length and a
    positive volume, and a duration that is not negative, it returns and
    the rendered mix lasts exactly the requested duration; each layer is
    repeat-appended until it is at least that long and cut to it. *)
Theorem generate_mix_audio_duration (env : Env) (m : MusicMixer) (fuel : nat)
    (layers : list Layer) (duration_ms : Z) :
  generate_mix_audio env fuel m [] duration_ms = Raise (ValueError "No layers to mix")
  ∧ (layers ≠ [] →
     Forall positive_length layers → Forall positive_volume layers →
     0 ≤ duration_ms → (Z.to_nat duration_ms < fuel)%nat →
     (∃ path mix,
        generate_mix_audio env fuel m layers duration_ms = Ret (path, mix)
        ∧ Z.of_N (length_ms mix) = duration_ms)
     ∧ (∀ l, l ∈ layers →
          ∃ looped,
            repeat_append fuel Pydub.empty (Pydub.apply_gain (audio l))
                          (inject_Z duration_ms) = Some looped
            ∧ duration_ms ≤ Z.of_N (length_ms looped)
            ∧ Z.of_N (length_ms (Pydub.slice_to looped duration_ms)) = duration_ms)).
Proof.
  split; [done|].
  intros Hne Hlen Hvol Hd Hfuel. split.
  - unfold generate_mix_audio. destruct layers as [|l layers]; [done|].
    destruct (mix_layers_returns (l :: layers) duration_ms fuel
                (Pydub.silent duration_ms) Hlen Hvol Hfuel) as (r & -> & Hr).
    eexists _, r. split; [done|]. rewrite Hr. simpl. lia.
  - intros l Hl. apply loop_and_truncate; [|done|done].
    rewrite Forall_forall in Hlen. by apply Hlen.
Qed.

Lemma generate_mix_audio_duration_witness :
  (∃ path mix,
     generate_mix_audio env_one_second (S (Z.to_nat 30000)) mixer_one_second
                        [layer_one_second] 30000 = Ret (path, mix)
     ∧ Z.of_N (length_ms mix) = 30000)
  ∧ (∀ l, l ∈ [layer_one_second] →
       ∃ looped,
         repeat_append (S (Z.to_nat 30000)) Pydub.empty (Pydub.apply_gain (audio l))
                       (inject_Z 30000) = Some looped
         ∧ 30000 ≤ Z.of_N (length_ms looped)
         ∧ Z.of_N (length_ms (Pydub.slice_to looped 30000)) = 30000).
Proof.
  apply (proj2 (generate_mix_audio_duration env_one_second mixer_one_second
                  (S (Z.to_nat 30000)) [layer_one_second] 30000)).
  - done.
  - apply Forall_cons. split; [done|apply Forall_nil_2].
  - apply Forall_cons. split; [done|apply Forall_nil_2].
  - lia.
  - lia.
Defined.

(** ** The loops on frames *)

(** [len()] is within half a millisecond of the exact duration. *)
Lemma frames_len_bounds (a : Frames.segment) :
  let n := 1000 * Z.of_N (Frames.frame_count a) in
  let r := Z.pos (Frames.frame_rate a) in
  2 * n - r ≤ 2 * r * Frames.len a ≤ 2 * n + r.
Proof.
  intros n r. unfold Frames.len. fold n r.
  assert (Hr : 0 < r) by (unfold r; lia).
  pose proof (Z.div_mod n r ltac:(lia)) as Hdm.
  pose proof (Z.mod_pos_bound n r Hr) as Hm.
  set (q := n / r) in *. set (k := n mod r) in *. clearbody q k.
  destruct (Z.compare_spec (2 * k) r); [destruct (Z.even q)|..]; nia.
Qed.

Lemma frames_len_no_frames (a : Frames.segment) :
  Frames.frame_count a = 0%N → Frames.len a = 0.
Proof. intros H. unfold Frames.len. by rewrite H. Qed.

Lemma frames_len_positive (a : Frames.segment) :
  0 < Frames.len a → (0 < Frames.frame_count a)%N.
Proof.
  intros H. destruct (N.eq_dec (Frames.frame_count a) 0%N) as [E|E]; [|lia].
  rewrite (frames_len_no_frames a E) in H. lia.
Qed.

Section FrameLoops.

Variable ratecv : N → positive → positive → N.

Lemma frames_append_same_rate (looped a : Frames.segment) :
  Frames.frame_rate looped = Frames.frame_rate a →
  Frames.append ratecv looped a
  = Frames.Segment (Frames.frame_count looped + Frames.frame_count a)
                   (Frames.frame_rate a).
Proof.
  intros H. unfold Frames.append, Frames.set_frame_rate. rewrite H, Pos.max_id.
  by rewrite Pos.eqb_refl.
Qed.

Lemma frames_append_empty (a : Frames.segment) :
  Frames.append ratecv Frames.empty a = a.
Proof.
  destruct a as [f r]. unfold Frames.append, Frames.set_frame_rate. simpl.
  rewrite Pos.max_1_l, Pos.eqb_refl. simpl.
  by destruct (Pos.eqb 1 r).
Qed.

Lemma frames_append_no_frames (looped a : Frames.segment) :
  Frames.frame_count looped = 0%N → Frames.frame_count a = 0%N →
  Frames.frame_count (Frames.append ratecv looped a) = 0%N.
Proof.
  intros Hl Ha. unfold Frames.append, Frames.set_frame_rate. simpl.
  rewrite Hl, Ha. simpl.
  by do 2 destruct (Pos.eqb _ _); simpl; rewrite ?Hl, ?Ha.
Qed.

(** Once the accumulator has the rate of the segment, every round adds the
    frames of the segment, and the loop stops before the accumulator holds
    [frame_rate * (ceiling target + 1)] frames. *)
Lemma frames_repeat_append_terminates (a : Frames.segment) (target : Q) (fuel : nat)
    (looped : Frames.segment) :
  (0 < Frames.frame_count a)%N →
  Frames.frame_rate looped = Frames.frame_rate a →
  (Z.to_nat (Z.pos (Frames.frame_rate a) * (Qceiling target + 1)
             - Z.of_N (Frames.frame_count looped)) < fuel)%nat →
  ∃ r, Frames.repeat_append ratecv fuel looped a target = Some r
       ∧ (target <= inject_Z (Frames.len r))%Q.
Proof.
  intros Hpos. revert looped.
  induction fuel as [|fuel IH]; intros looped Hrate Hfuel; [lia|].
  simpl. destruct (Qlt_bool (inject_Z (Frames.len looped)) target) eqn:E.
  - apply Qlt_bool_true, inject_Z_lt_ceiling in E.
    rewrite (frames_append_same_rate looped a Hrate).
    apply IH; [done|]. simpl.
    pose proof (frames_len_bounds looped) as Hb. cbv zeta in Hb. rewrite Hrate in Hb.
    set (r := Z.pos (Frames.frame_rate a)) in *.
    assert (Hr : 0 < r) by (unfold r; lia).
    set (k := Z.of_N (Frames.frame_count looped)) in *.
    assert (Hk : 0 ≤ k) by (unfold k; lia).
    assert (Hk' : k < r * (Qceiling target + 1)) by nia.
    lia.
  - exists looped. split; [done|]. by apply Qlt_bool_false.
Qed.

Lemma frames_loop_terminates (a : Frames.segment) (target : Q) :
  (0 < Frames.frame_count a)%N →
  ∃ fuel, ∀ fuel', (fuel ≤ fuel')%nat →
    ∃ r, Frames.repeat_append ratecv fuel' Frames.empty a target = Some r
         ∧ (target <= inject_Z (Frames.len r))%Q.
Proof.
  intros Hpos.
  exists (S (S (Z.to_nat (Z.pos (Frames.frame_rate a) * (Qceiling target + 1))))).
  intros fuel' Hfuel. destruct fuel' as [|fuel']; [lia|].
  simpl. destruct (Qlt_bool (inject_Z (Frames.len Frames.empty)) target) eqn:E.
  - rewrite frames_append_empty.
    apply frames_repeat_append_terminates; [done|done|lia].
  - exists Frames.empty. split; [done|]. by apply Qlt_bool_false.
Qed.

Lemma frames_repeat_append_diverges (a : Frames.segment) (target : Q) (fuel : nat)
    (looped : Frames.segment) :
  Frames.frame_count a = 0%N → Frames.frame_count looped = 0%N → (0 < target)%Q →
  Frames.repeat_append ratecv fuel looped a target = None.
Proof.
  intros Ha. revert looped.
  induction fuel as [|fuel IH]; intros looped Hl Ht; [done|].
  simpl. rewrite (frames_len_no_frames looped Hl).
  assert (E : Qlt_bool (inject_Z 0) target = true) by by apply Qlt_bool_true.
  rewrite E. apply IH; [|done]. by apply frames_append_no_frames.
Qed.

Lemma frames_loop_diverges (a : Frames.segment) (target : Q) :
  loops_for_ever (fun fuel => Frames.repeat_append ratecv fuel Frames.empty a target)
  ↔ Frames.frame_count a = 0%N ∧ (0 < target)%Q.
Proof.
  split.
  - intros Hdiv. split.
    + destruct (N.eq_dec (Frames.frame_count a) 0%N) as [E|E]; [done|].
      destruct (frames_loop_terminates a target) as (fuel & Hfuel); [lia|].
      destruct (Hfuel fuel) as (r & Hr & _); [lia|].
      rewrite (Hdiv fuel) in Hr. discriminate Hr.
    + destruct (Qlt_le_dec 0 target) as [H|H]; [done|].
      specialize (Hdiv 1%nat). simpl in Hdiv.
      assert (E : Qlt_bool (inject_Z (Frames.len Frames.empty)) target = false)
        by by apply Qlt_bool_false.
      rewrite E in Hdiv. discriminate Hdiv.
  - intros [Ha Ht] fuel. by apply frames_repeat_append_diverges.
Qed.

Lemma whole_ms_len (a : AudioSegment) :
  Frames.len (whole_ms a) = Z.of_N (length_ms a).
Proof.
  unfold Frames.len, whole_ms. cbn [Frames.frame_count Frames.frame_rate].
  rewrite (Z.mul_comm 1000), Z.mod_mul, Z.div_mul by lia. done.
Qed.

(** On segments of whole milliseconds the loop on frames is the loop on
    lengths. *)
Lemma whole_ms_repeat_append (fuel : nat) (looped a : AudioSegment) (target : Q) :
  Frames.repeat_append ratecv fuel (whole_ms looped) (whole_ms a) target
  = whole_ms <$> repeat_append fuel looped a target.
Proof.
  revert looped. induction fuel as [|fuel IH]; intros looped; [done|].
  simpl. rewrite whole_ms_len. fold (len_Q looped).
  destruct (Qlt_bool (len_Q looped) target); [|done].
  rewrite frames_append_same_rate by done. apply (IH (Pydub.concat looped a)).
Qed.

Lemma whole_ms_loop (fuel : nat) (a : AudioSegment) (target : Q) :
  Frames.frame_count <$> Frames.repeat_append ratecv fuel Frames.empty (whole_ms a) target
  = length_ms <$> repeat_append fuel Pydub.empty a target.
Proof.
  destruct fuel as [|fuel]; [done|]. cbn [Frames.repeat_append repeat_append].
  change (len_Q Pydub.empty) with (inject_Z 0).
  change (Frames.len Frames.empty) with 0.
  destruct (Qlt_bool (inject_Z 0) target); [|done].
  rewrite frames_append_empty.
  pose proof (whole_ms_repeat_append fuel (Pydub.concat Pydub.empty a) a target) as H.
  change (whole_ms (Pydub.concat Pydub.empty a)) with (whole_ms a) in H.
  rewrite H. by destruct (repeat_append _ _ _ _).
Qed.

End FrameLoops.

(** C10, as stated, fails.  With a duration of zero, or a negative target
    tempo, the loops are not entered and a segment of length zero goes
    through.  Three frames at 8000 Hz have [len()] 0, and the loop that
    repeats them reaches 7500 ms.  Nor does every round make [len()]
    larger: six frames at 10000 Hz have [len()] 1, and so have twelve. *)
Lemma zero_length_terminates :
  generate_mix_audio env_one_second 1 mixer_one_second [layer_zero_length] 0
    = Ret ("/tmp/music_mixer_0/mix_000000.wav", Audio 0 11025)
  ∧ optimize_audio_length 1 (Audio 0 44100) (-128) = Ret (Audio 0 44100)
  ∧ Frames.len (Frames.Segment 3 8000) = 0
  ∧ (∃ looped,
       Frames.repeat_append ratecv_same (Z.to_nat 20001) Frames.empty
                            (Frames.Segment 3 8000) (inject_Z 7500) = Some looped
       ∧ 7500 ≤ Frames.len looped)
  ∧ Frames.len (Frames.Segment 6 10000) = 1
  ∧ Frames.len (Frames.append ratecv_same (Frames.Segment 6 10000)
                              (Frames.Segment 6 10000)) = 1.
Proof.
  split; [by vm_compute|]. split; [by vm_compute|]. split; [done|].
  split; [|by vm_compute].
  eexists. split; by vm_compute.
Qed.

(** C10 (amended): the loops of [optimize_audio_length] and
    [generate_mix_audio] stop for every segment of positive length, and
    more generally for every segment that holds a frame: a segment of
    positive length holds a frame, the first round turns the empty
    accumulator into the segment, every later round adds the frames of the
    segment, and [len()] of the accumulator reaches any target.  Positive
    length is not needed for that.  The loop runs for ever exactly when the
    segment holds no frame and the length to reach is positive.  On the
    engine functions themselves, whose segments are whole milliseconds:
    with audio of positive length neither function runs out of fuel. *)
Theorem repeat_append_loops (ratecv : N → positive → positive → N) :
  (∀ a : Frames.segment, 0 < Frames.len a → (0 < Frames.frame_count a)%N)
  ∧ (∀ a : Frames.segment, Frames.append ratecv Frames.empty a = a)
  ∧ (∀ looped a : Frames.segment,
       Frames.frame_rate looped = Frames.frame_rate a →
       Frames.append ratecv looped a
       = Frames.Segment (Frames.frame_count looped + Frames.frame_count a)
                        (Frames.frame_rate a))
  ∧ (∀ (a : Frames.segment) (target : Q), (0 < Frames.frame_count a)%N →
       ∃ fuel, ∀ fuel', (fuel ≤ fuel')%nat →
         ∃ looped,
           Frames.repeat_append ratecv fuel' Frames.empty a target = Some looped
           ∧ (target <= inject_Z (Frames.len looped))%Q)
  ∧ (∀ (a : Frames.segment) (target : Q),
       loops_for_ever (fun fuel => Frames.repeat_append ratecv fuel Frames.empty a target)
       ↔ Frames.frame_count a = 0%N ∧ (0 < target)%Q)
  ∧ (∀ (a : AudioSegment) (target_bpm : Z), (0 < length_ms a)%N →
       ∃ fuel, ∀ fuel', (fuel ≤ fuel')%nat →
         optimize_audio_length fuel' a target_bpm ≠ Timeout)
  ∧ (∀ (env : Env) (m : MusicMixer) (layers : list Layer) (duration_ms : Z),
       Forall positive_length layers →
       ∃ fuel, ∀ fuel', (fuel ≤ fuel')%nat →
         generate_mix_audio env fuel' m layers duration_ms ≠ Timeout).
Proof.
  split; [apply frames_len_positive|].
  split; [apply frames_append_empty|].
  split; [apply frames_append_same_rate|].
  split; [apply frames_loop_terminates|].
  split; [apply frames_loop_diverges|].
  split; [apply optimize_audio_length_terminates|].
  intros env m layers duration_ms Hlen.
  exists (S (Z.to_nat duration_ms)). intros fuel' Hfuel.
  unfold generate_mix_audio. destruct layers as [|l layers]; [done|].
  pose proof (mix_layers_no_timeout (l :: layers) duration_ms fuel'
                (Pydub.silent duration_ms) Hlen) as H.
  destruct (mix_layers _ _ _ _); [done|done|]. exfalso. apply H; [lia|done].
Qed.

Lemma repeat_append_loops_witness :
  (∃ fuel, ∀ fuel', (fuel ≤ fuel')%nat →
     ∃ looped,
       Frames.repeat_append ratecv_same fuel' Frames.empty (Frames.Segment 3 8000)
                            (inject_Z 7500) = Some looped
       ∧ (inject_Z 7500 <= inject_Z (Frames.len looped))%Q)
  ∧ loops_for_ever (fun fuel =>
      Frames.repeat_append ratecv_same fuel Frames.empty (Frames.Segment 0 11025)
                           (inject_Z 30000))
  ∧ (∃ fuel, ∀ fuel', (fuel ≤ fuel')%nat →
       optimize_audio_length fuel' (Audio 1000 44100) 128 ≠ Timeout).
Proof.
  pose proof (repeat_append_loops ratecv_same)
    as (_ & _ & _ & Hstop & Hloop & Hopt & _).
  split; [|split].
  - apply Hstop. done.
  - apply Hloop. split; done.
  - apply Hopt. done.
Defined.

(** ** The random source *)

Lemma randbelow_lt (n : nat) (g : rng) :
  (0 < n)%nat → ((Random.randbelow n g).1 < n)%nat.
Proof.
  intros Hn. unfold Random.randbelow, Random.next_draw. simpl.
  assert (H : (draws g (cursor g) mod N.of_nat n < N.of_nat n)%N)
    by (apply N.mod_lt; lia).
  lia.
Qed.

(** [random.random()] is in [0, 1). *)
Lemma random_unit_interval (g : rng) :
  (0 <= (Random.random g).1)%Q ∧ ((Random.random g).1 < 1)%Q.
Proof.
  unfold Random.random, Random.next_draw.
  assert (H : (draws g (cursor g) mod N.pos Random.two53 < N.pos Random.two53)%N)
    by (apply N.mod_lt; lia).
  set (r := (draws g (cursor g) mod N.pos Random.two53)%N) in *.
  unfold Qle, Qlt. cbn [fst Qnum Qden]. lia.
Qed.

(** [random.uniform(a, b)] is in [a, b] when [a <= b]. *)
Lemma uniform_range (a b : Q) (g : rng) :
  (a <= b)%Q →
  (a <= (Random.uniform a b g).1)%Q ∧ ((Random.uniform a b g).1 <= b)%Q.
Proof.
  intros Hab. unfold Random.uniform.
  pose proof (random_unit_interval g) as [H0 H1].
  destruct (Random.random g) as [r g']. simpl in *.
  assert (Hd : (0 <= b - a)%Q) by (apply (Qplus_le_l _ _ a); ring_simplify; done).
  split.
  - rewrite <- (Qplus_0_r a) at 1. apply Qplus_le_r. by apply Qmult_le_0_compat.
  - assert (Hm : ((b - a) * r <= (b - a) * 1)%Q).
    { rewrite !(Qmult_comm (b - a)). apply Qmult_le_compat_r; [|done].
      by apply Qlt_le_weak. }
    apply (Qplus_le_r _ _ a) in Hm.
    eapply Qle_trans; [exact Hm|]. ring_simplify. apply Qle_refl.
Qed.

(** Taking the item at [j] and moving the last item into its place leaves
    the other items of the pool. *)
Lemma swap_remove_perm {A : Type} (pool : list A) (j : nat) (x y : A) :
  pool !! j = Some x → pool !! (length pool - 1)%nat = Some y →
  x :: take (length pool - 1) (<[j := y]> pool) ≡ₚ pool.
Proof.
  intros Hx Hy.
  assert (Hj : (j < length pool)%nat) by by eapply lookup_lt_Some.
  assert (Hpool : pool = take (length pool - 1) pool ++ [y]).
  { rewrite <- (take_S_r _ _ _ Hy).
    replace (S (length pool - 1)) with (length pool) by lia.
    by rewrite firstn_all. }
  destruct (decide (j = (length pool - 1)%nat)) as [->|Hne].
  - rewrite Hx in Hy. injection Hy as ->.
    rewrite take_insert_ge by lia.
    rewrite Hpool at 3. by rewrite Permutation_cons_append.
  - rewrite take_insert_lt by lia.
    assert (Hi : take (length pool - 1) pool !! j = Some x).
    { rewrite lookup_take_lt by lia. done. }
    remember (take (length pool - 1) pool) as init eqn:Hinit.
    assert (Hlen : (j < length init)%nat) by by eapply lookup_lt_Some.
    trans (init ++ [y]); [|by rewrite <- Hpool].
    rewrite (insert_take_drop init j y Hlen).
    rewrite <- Permutation_cons_append.
    rewrite (delete_Permutation init j x Hi) at 3.
    rewrite delete_take_drop.
    rewrite <- Permutation_middle. apply perm_swap.
Qed.

Lemma sample_pool_spec {A : Type} (k : nat) (pool : list A) (g : rng) :
  (k ≤ length pool)%nat →
  (Random.sample_pool pool k g).1 ⊆+ pool
  ∧ length (Random.sample_pool pool k g).1 = k.
Proof.
  revert pool g. induction k as [|k IH]; intros pool g Hk.
  { split; [apply submseteq_nil_l|done]. }
  cbn [Random.sample_pool].
  pose proof (randbelow_lt (length pool) g ltac:(lia)) as Hj.
  destruct (Random.randbelow (length pool) g) as [j g1]. cbn [fst] in Hj.
  destruct (lookup_lt_is_Some_2 pool j Hj) as [x Hx].
  destruct (lookup_lt_is_Some_2 pool (length pool - 1)%nat ltac:(lia)) as [y Hy].
  rewrite Hx, Hy.
  specialize (IH (take (length pool - 1) (<[j := y]> pool)) g1).
  destruct (Random.sample_pool _ k g1) as [res g2]. simpl in *.
  destruct IH as [Hsub Hlen].
  { rewrite length_take, length_insert. lia. }
  split; [|by rewrite Hlen].
  rewrite <- (swap_remove_perm pool j x y Hx Hy). by apply submseteq_skip.
Qed.

Lemma submseteq_NoDup {A : Type} (l k : list A) : NoDup k → l ⊆+ k → NoDup l.
Proof.
  intros Hk Hsub. apply submseteq_sublist_l in Hsub as (l2 & Hs & Hp).
  eapply sublist_NoDup; [|exact Hs]. by rewrite Hp.
Qed.

(** What [random.sample] returns: [k] items of the population, each taken
    at most as often as it occurs there. *)
Lemma sample_ret {A : Type} (population res : list A) (k : Z) (g g' : rng) :
  Random.sample population k g = (Ret res, g') →
  0 ≤ k ≤ Z.of_nat (length population)
  ∧ res ⊆+ population ∧ length res = Z.to_nat k.
Proof.
  unfold Random.sample.
  destruct (Z.ltb_spec k 0); [done|].
  destruct (Z.ltb_spec (Z.of_nat (length population)) k); [done|]. simpl.
  pose proof (sample_pool_spec (Z.to_nat k) population g ltac:(lia)) as [Hs Hl].
  destruct (Random.sample_pool population (Z.to_nat k) g) as [r g2].
  intros [= <- <-]. split; [lia|done].
Qed.

Lemma sample_not_timeout {A : Type} (population : list A) (k : Z) (g : rng) :
  (Random.sample population k g).1 ≠ Timeout.
Proof.
  unfold Random.sample.
  destruct (_ || _); [done|]. by destruct (Random.sample_pool _ _ _).
Qed.

Lemma sample_raise {A : Type} (population : list A) (k : Z) (g : rng) (e : exn) :
  (Random.sample population k g).1 = Raise e →
  (k < 0 ∨ Z.of_nat (length population) < k)
  ∧ e = ValueError "Sample larger than population or is negative".
Proof.
  unfold Random.sample.
  destruct (Z.ltb_spec k 0); simpl.
  { intros [= <-]. split; [by left|done]. }
  destruct (Z.ltb_spec (Z.of_nat (length population)) k); simpl.
  { intros [= <-]. split; [by right|done]. }
  by destruct (Random.sample_pool _ _ _).
Qed.

(** ** Category selection *)

Lemma populated_bucket (categories : gmap string (list sample_info)) (c : string) :
  populated categories c = true ↔ bucket categories c ≠ [].
Proof.
  unfold populated, bucket.
  destruct (categories !! c) as [[|i l]|]; simpl; split; done.
Qed.

Lemma stochastic_inclusion_sublist (probabilities : list (string * Q))
    (categories : gmap string (list sample_info)) (order : list string) (g : rng) :
  (stochastic_inclusion probabilities categories order g).1
    `sublist_of` filter (fun c => populated categories c = true) order.
Proof.
  revert g. induction order as [|c order IH]; intros g; [done|].
  cbn [stochastic_inclusion]. rewrite filter_cons.
  destruct (populated categories c) eqn:Hc.
  - destruct (Random.random g) as [r g1].
    specialize (IH g1).
    destruct (stochastic_inclusion probabilities categories order g1) as [rest g2].
    cbn [fst] in *. destruct (decide (true = true)); [|done].
    match goal with
    | |- (if ?b then _ else _) `sublist_of` _ => destruct b
    end; [by apply sublist_skip|by apply sublist_cons].
  - destruct (decide (false = true)); [done|]. apply IH.
Qed.

(** The candidates are populated categories, in priority order; they are
    the result of the draws unless that is empty, and then all populated
    categories. *)
Lemma available_categories_spec (m : MusicMixer)
    (categories : gmap string (list sample_info)) (g : rng) :
  let probabilities :=
    if experimental_mode m then EXPERIMENTAL_PROBABILITIES else STANDARD_PROBABILITIES in
  let drawn := (stochastic_inclusion probabilities categories priority_order g).1 in
  let available := (available_categories m categories g).1 in
  available `sublist_of` populated_categories categories
  ∧ (drawn = [] → available = populated_categories categories)
  ∧ (drawn ≠ [] → available = drawn)
  ∧ (available = [] → populated_categories categories = []).
Proof.
  intros probabilities drawn available. unfold available, available_categories.
  fold probabilities.
  pose proof (stochastic_inclusion_sublist probabilities categories priority_order g) as Hs.
  fold drawn in Hs. unfold drawn in *.
  destruct (stochastic_inclusion probabilities categories priority_order g) as [[|c l] g1];
    simpl in *; repeat split; done.
Qed.

Lemma available_categories_priority (m : MusicMixer)
    (categories : gmap string (list sample_info)) (g : rng) (c : string) :
  c ∈ (available_categories m categories g).1 → c ∈ priority_order.
Proof.
  intros Hc.
  pose proof (available_categories_spec m categories g) as (Hsub & _).
  eapply elem_of_sublist in Hc; [|exact Hsub].
  unfold populated_categories in Hc. by apply list_elem_of_filter in Hc as [_ Hc].
Qed.

Lemma classify_samples_populated (env : Env) (m : MusicMixer) (samples : list string) :
  samples ≠ [] →
  populated_categories (classify_samples env m samples).1 ≠ [].
Proof.
  destruct samples as [|s samples]; [done|]. intros _.
  pose proof (classify_samples_bucket_paths env m (s :: samples) (sample_category s))
    as Hb.
  rewrite filter_cons in Hb. destruct (decide _) as [_|]; [|done].
  assert (Hp : populated (classify_samples env m (s :: samples)).1 (sample_category s) = true).
  { apply populated_bucket. intros Hnil. by rewrite Hnil in Hb. }
  intros Hnone.
  assert (Hin : sample_category s ∈ populated_categories
                  (classify_samples env m (s :: samples)).1).
  { unfold populated_categories. apply list_elem_of_filter. split; [done|].
    apply category_of_priority. }
  rewrite Hnone in Hin. by apply elem_of_nil in Hin.
Qed.

Lemma volume_range_bounds (c : string) :
  (0 < (volume_range c).1)%Q ∧ ((volume_range c).1 <= (volume_range c).2)%Q
  ∧ ((volume_range c).2 <= 1)%Q.
Proof.
  unfold volume_range, volume_ranges. cbn [Py.dict_get].
  repeat match goal with
  | |- context [String.eqb ?a c] => destruct (String.eqb a c)
  end; by vm_compute.
Qed.

(** What the layer loop returns: at most one layer per selected category,
    in the order of the selection, each with a volume of its category's
    range. *)
Lemma build_layers_ret (env : Env) (fuel : nat) (m : MusicMixer)
    (categories : gmap string (list sample_info))
    (compatible_keys : list (option string)) (selected : list string)
    (g g' : rng) (layers : list Layer) :
  build_layers env fuel m categories compatible_keys selected g = (Ret layers, g') →
  map category layers `sublist_of` selected
  ∧ Forall volume_in_range layers
  ∧ Forall (fun l => ∃ bpm key, (sample l, bpm, key) ∈ bucket categories (category l)) layers.
Proof.
  revert g g' layers. induction selected as [|c selected IH]; intros g g' layers.
  { intros [= <- <-]. repeat split; constructor. }
  cbn [build_layers].
  destruct (Random.choice _ g) as [[[[sample_path bpm] skey]|] g1] eqn:Ec.
  2: { intros H. apply IH in H as (H1 & H2 & H3). repeat split; [|done|done].
       by apply sublist_cons. }
  destruct (layer_audio env fuel m sample_path bpm) as [a|e|].
  - pose proof (uniform_range (volume_range c).1 (volume_range c).2 g1
                  (proj1 (proj2 (volume_range_bounds c)))) as Hu.
    fold (volume_range c).
    destruct (Random.uniform (volume_range c).1 (volume_range c).2 g1) as [v g2].
    destruct (build_layers env fuel m categories compatible_keys selected g2)
      as [[ls|e|] g3] eqn:Eb; [|done|done].
    intros [= <- <-]. apply IH in Eb as (H1 & H2 & H3).
    repeat split.
    + simpl. by apply sublist_skip.
    + apply Forall_cons. split; [exact Hu|done].
    + apply Forall_cons. split; [|done]. simpl. exists bpm, skey.
      clear -Ec. unfold Random.choice in Ec.
      destruct (samples_to_use c compatible_keys (bucket categories c)) as [|i l] eqn:Es;
        [done|].
      destruct (Random.randbelow _ g) as [j g'']. injection Ec as Hj _.
      apply list_elem_of_lookup_2 in Hj. rewrite <- Es in Hj.
      unfold samples_to_use in Hj.
      destruct (filter _ (bucket categories c)) eqn:Ef; [done|].
      rewrite <- Ef in Hj. by apply list_elem_of_filter in Hj as [_ Hj].
  - intros H. apply IH in H as (H1 & H2 & H3). repeat split; [|done|done].
    by apply sublist_cons.
  - done.
Qed.

Lemma build_layers_no_raise (env : Env) (fuel : nat) (m : MusicMixer)
    (categories : gmap string (list sample_info))
    (compatible_keys : list (option string)) (selected : list string)
    (g : rng) (e : exn) :
  (build_layers env fuel m categories compatible_keys selected g).1 ≠ Raise e.
Proof.
  revert g. induction selected as [|c selected IH]; intros g; [done|].
  cbn [build_layers].
  destruct (Random.choice _ g) as [[[[sample_path bpm] skey]|] g1]; [|apply IH].
  destruct (layer_audio env fuel m sample_path bpm) as [a|e'|]; [|apply IH|done].
  destruct (Random.uniform _ _ g1) as [v g2].
  specialize (IH g2).
  by destruct (build_layers env fuel m categories compatible_keys selected g2)
    as [[ls|e'|] g3].
Qed.

(** ** Composition *)

(** The steps behind a composition that is returned. *)
Lemma create_multilayer_composition_ret (env : Env) (fuel : nat) (m : MusicMixer)
    (g : rng) (num_layers : Z) (custom_samples_dir : option string)
    (layers : list Layer) (info : CompositionInfo) (m' : MusicMixer) (g' : rng) :
  create_multilayer_composition env fuel m g num_layers custom_samples_dir
    = (Ret (layers, info), m', g') →
  let samples := get_all_samples env m custom_samples_dir in
  let categories := (classify_samples env m samples).1 in
  let m1 := (classify_samples env m samples).2 in
  let available := (available_categories m1 categories g).1 in
  let g1 := (available_categories m1 categories g).2 in
  samples ≠ [] ∧ m' = m1 ∧ info = composition_info env m1 layers
  ∧ ∃ selected g2,
      Random.sample available (Z.min num_layers (Z.of_nat (length available))) g1
        = (Ret selected, g2)
      ∧ build_layers env fuel m1 categories (get_compatible_keys (current_key m1))
          selected g2 = (Ret layers, g').
Proof.
  unfold create_multilayer_composition.
  destruct (get_all_samples env m custom_samples_dir) as [|s samples] eqn:Es; [done|].
  pose proof (classify_samples_populated env m (s :: samples) ltac:(done)) as Hpop.
  destruct (classify_samples env m (s :: samples)) as [categories m1] eqn:Ec.
  pose proof (available_categories_spec m1 categories g) as (_ & _ & _ & Hempty).
  destruct (available_categories m1 categories g) as [available g1] eqn:Ea.
  cbn [fst snd] in *.
  destruct available as [|c available].
  { exfalso. apply Hpop. apply Hempty. reflexivity. }
  destruct (Random.sample (c :: available) _ g1) as [[selected|e|] g2] eqn:Er.
  2, 3: intros H; discriminate H.
  destruct (build_layers env fuel m1 categories _ selected g2) as [[ls|e|] g3] eqn:Eb.
  2, 3: intros H; discriminate H.
  intros H. injection H as <- <- <- <-. rewrite Ea. cbn [fst snd].
  split; [done|]. split; [done|]. split; [done|]. by exists selected, g2.
Qed.

(** The layers of a returned composition carry categories of the
    priority list. *)
Lemma composition_layer_categories (env : Env) (fuel : nat) (m : MusicMixer)
    (g : rng) (num_layers : Z) (custom_samples_dir : option string)
    (layers : list Layer) (info : CompositionInfo) (m' : MusicMixer) (g' : rng) :
  create_multilayer_composition env fuel m g num_layers custom_samples_dir
    = (Ret (layers, info), m', g') →
  ∀ l, l ∈ layers → category l ∈ priority_order.
Proof.
  intros Hret l Hl.
  apply create_multilayer_composition_ret in Hret
    as (_ & _ & _ & selected & g2 & Hsample & Hbuild).
  apply sample_ret in Hsample as (_ & Hsel & _).
  apply build_layers_ret in Hbuild as (Hcat & _ & _).
  eapply available_categories_priority.
  eapply elem_of_submseteq; [|exact Hsel].
  eapply elem_of_sublist; [|exact Hcat]. by apply list_elem_of_fmap_2.
Qed.

(** C4: a returned composition has at most [min(num_layers, number of
    candidate categories)] layers and no two layers of one category; the
    candidates are the populated categories kept by the draws or, when the
    draws keep none, all populated categories, of which there is at least
    one since the sample set is not empty. *)
Theorem composition_layers_distinct (env : Env) (fuel : nat) (m : MusicMixer)
    (g : rng) (num_layers : Z) (custom_samples_dir : option string)
    (layers : list Layer) (info : CompositionInfo) (m' : MusicMixer) (g' : rng) :
  create_multilayer_composition env fuel m g num_layers custom_samples_dir
    = (Ret (layers, info), m', g') →
  let samples := get_all_samples env m custom_samples_dir in
  let categories := (classify_samples env m samples).1 in
  let m1 := (classify_samples env m samples).2 in
  let candidates := (available_categories m1 categories g).1 in
  let probabilities :=
    if experimental_mode m1 then EXPERIMENTAL_PROBABILITIES else STANDARD_PROBABILITIES in
  let drawn := (stochastic_inclusion probabilities categories priority_order g).1 in
  samples ≠ []
  ∧ Z.of_nat (length layers) ≤ Z.min num_layers (Z.of_nat (length candidates))
  ∧ NoDup (map category layers)
  ∧ (∀ l, l ∈ layers → category l ∈ candidates)
  ∧ (∀ c, c ∈ candidates → populated categories c = true)
  ∧ (drawn = [] → candidates = populated_categories categories)
  ∧ (drawn ≠ [] → candidates = drawn)
  ∧ populated_categories categories ≠ [].
Proof.
  intros Hret samples categories m1 candidates probabilities drawn.
  apply create_multilayer_composition_ret in Hret
    as (Hne & _ & _ & selected & g2 & Hsample & Hbuild).
  fold samples categories m1 candidates in Hsample, Hbuild, Hne.
  pose proof (available_categories_spec m1 categories g) as (Hsub & Hd1 & Hd2 & _).
  fold probabilities drawn candidates in Hsub, Hd1, Hd2.
  apply sample_ret in Hsample as (Hk & Hsel & Hlen).
  apply build_layers_ret in Hbuild as (Hcat & _ & _).
  assert (Hnd : NoDup candidates).
  { eapply sublist_NoDup; [|exact Hsub].
    eapply sublist_NoDup; [apply priority_order_NoDup|apply sublist_filter]. }
  split; [done|]. split.
  { apply sublist_length in Hcat. rewrite length_map in Hcat. lia. }
  split.
  { eapply sublist_NoDup; [|exact Hcat]. by eapply submseteq_NoDup. }
  split.
  { intros l Hl. eapply elem_of_submseteq; [|exact Hsel].
    eapply elem_of_sublist; [|exact Hcat]. by apply list_elem_of_fmap_2. }
  split.
  { intros c Hc. eapply elem_of_sublist in Hc; [|exact Hsub].
    unfold populated_categories in Hc. by apply list_elem_of_filter in Hc as [Hc _]. }
  split; [done|]. split; [done|].
  by apply classify_samples_populated.
Qed.

(** A library of one drum sample, three layers asked for. *)
Lemma composition_layers_distinct_witness :
  let r := create_multilayer_composition env_one_second 100 mixer_one_second
             rng_count 3 None in
  (∃ layers info, r.1.1 = Ret (layers, info)
     ∧ Z.of_nat (length layers) ≤ 3
     ∧ NoDup (map category layers))
  ∧ get_all_samples env_one_second mixer_one_second None ≠ [].
Proof.
  set (r := create_multilayer_composition env_one_second 100 mixer_one_second
              rng_count 3 None).
  cbv zeta.
  destruct r as [[[[layers info]|e|] m'] g'] eqn:Er; [|by vm_compute in Er..].
  pose proof (composition_layers_distinct env_one_second 100 mixer_one_second
                rng_count 3 None layers info m' g' Er) as (Hne & Hlen & Hnd & _).
  split; [|exact Hne].
  exists layers, info. split; [done|]. split; [lia|done].
Defined.

Lemma volume_ranges_total (c : string) :
  c ∈ priority_order → Py.dict_get c volume_ranges = Some (volume_range c).
Proof.
  unfold priority_order. rewrite !elem_of_cons, elem_of_nil.
  intros [->|[->|[->|[->|[->|[->|[->|[->|[]]]]]]]]]; by vm_compute.
Qed.

Lemma probabilities_total (c : string) :
  c ∈ priority_order →
  is_Some (Py.dict_get c STANDARD_PROBABILITIES)
  ∧ is_Some (Py.dict_get c EXPERIMENTAL_PROBABILITIES).
Proof.
  unfold priority_order. rewrite !elem_of_cons, elem_of_nil.
  intros [->|[->|[->|[->|[->|[->|[->|[->|[]]]]]]]]]; split; vm_compute; by eexists.
Qed.

Lemma volume_in_range_positive (l : Layer) : volume_in_range l → positive_volume l.
Proof.
  intros [Hlo _]. unfold positive_volume.
  eapply Qlt_le_trans; [|exact Hlo]. apply volume_range_bounds.
Qed.

Lemma mix_layers_no_raise (layers : list Layer) (duration_ms : Z) (fuel : nat)
    (mix_audio : AudioSegment) (e : exn) :
  Forall positive_volume layers →
  mix_layers fuel layers duration_ms mix_audio ≠ Raise e.
Proof.
  intros Hvol. revert mix_audio.
  induction layers as [|l layers IH]; intros mix_audio; simpl; [done|].
  apply Forall_cons in Hvol as [Hv Hvol].
  rewrite (positive_volume_gain l Hv).
  destruct (repeat_append _ _ _ _); [by apply IH|done].
Qed.

Lemma composition_volumes (env : Env) (fuel : nat) (m : MusicMixer)
    (g : rng) (num_layers : Z) (custom_samples_dir : option string)
    (layers : list Layer) (info : CompositionInfo) (m' : MusicMixer) (g' : rng) :
  create_multilayer_composition env fuel m g num_layers custom_samples_dir
    = (Ret (layers, info), m', g') →
  Forall volume_in_range layers.
Proof.
  intros Hret.
  apply create_multilayer_composition_ret in Hret
    as (_ & _ & _ & selected & g2 & _ & Hbuild).
  by apply build_layers_ret in Hbuild as (_ & Hvol & _).
Qed.

Lemma composition_mix_no_raise (env : Env) (layers : list Layer) (m : MusicMixer)
    (fuel : nat) (duration_ms : Z) (e : exn) :
  Forall volume_in_range layers →
  generate_mix_audio env fuel m layers duration_ms = Raise e → layers = [].
Proof.
  intros Hvol. unfold generate_mix_audio.
  destruct layers as [|l layers]; [done|].
  pose proof (mix_layers_no_raise (l :: layers) duration_ms fuel
                (Pydub.silent duration_ms)) as Hn.
  destruct (mix_layers _ _ _ _) as [a|e'|]; [done| |done].
  intros _. exfalso. apply (Hn e'); [|done].
  eapply Forall_impl; [exact Hvol|]. apply volume_in_range_positive.
Qed.

(** C8: every layer of a returned composition has a volume in the range of
    its category, a fixed entry [(lo, hi)] of [volume_ranges] with
    [0 < lo <= hi <= 1]; so the volume is positive, [math.log10] is defined
    on it, and [generate_mix_audio] never raises on these layers unless
    there are none. *)
Theorem layer_volume_positive (env : Env) (fuel : nat) (m : MusicMixer)
    (g : rng) (num_layers : Z) (custom_samples_dir : option string)
    (layers : list Layer) (info : CompositionInfo) (m' : MusicMixer) (g' : rng) :
  create_multilayer_composition env fuel m g num_layers custom_samples_dir
    = (Ret (layers, info), m', g') →
  (∀ l, l ∈ layers →
     ∃ lo hi : Q,
       Py.dict_get (category l) volume_ranges = Some (lo, hi)
       ∧ (0 < lo)%Q ∧ (lo <= hi)%Q ∧ (hi <= 1)%Q
       ∧ (lo <= volume l)%Q ∧ (volume l <= hi)%Q
       ∧ (0 < volume l)%Q
       ∧ Qle_bool (volume l) 0 = false)
  ∧ (∀ (fuel' : nat) (duration_ms : Z) (e : exn),
       generate_mix_audio env fuel' m' layers duration_ms = Raise e → layers = []).
Proof.
  intros Hret.
  pose proof (composition_layer_categories _ _ _ _ _ _ _ _ _ _ Hret) as Hcand.
  pose proof (composition_volumes _ _ _ _ _ _ _ _ _ _ Hret) as Hvol'.
  pose proof Hvol' as Hvol. rewrite Forall_forall in Hvol.
  split.
  - intros l Hl.
    pose proof (volume_range_bounds (category l)) as (H0 & H1 & H2).
    destruct (Hvol l Hl) as [Hlo Hhi].
    exists (volume_range (category l)).1, (volume_range (category l)).2.
    split.
    { rewrite <- surjective_pairing. apply volume_ranges_total.
      by apply Hcand. }
    repeat split; try done.
    + by apply volume_in_range_positive.
    + by apply positive_volume_gain, volume_in_range_positive.
  - intros fuel' duration_ms e. by apply composition_mix_no_raise.
Qed.

Lemma layer_volume_positive_witness :
  let r := create_multilayer_composition env_one_second 100 mixer_one_second
             rng_count 3 None in
  ∃ layers info, r.1.1 = Ret (layers, info)
    ∧ layers ≠ []
    ∧ ∀ l, l ∈ layers → (0 < volume l)%Q ∧ Qle_bool (volume l) 0 = false.
Proof.
  set (r := create_multilayer_composition env_one_second 100 mixer_one_second
              rng_count 3 None).
  cbv zeta.
  destruct r as [[[[layers info]|e|] m'] g'] eqn:Er; [|by vm_compute in Er..].
  pose proof (layer_volume_positive env_one_second 100 mixer_one_second
                rng_count 3 None layers info m' g' Er) as [Hvol _].
  exists layers, info. split; [done|]. split.
  - intros ->. by vm_compute in Er.
  - intros l Hl. destruct (Hvol l Hl) as (lo & hi & _ & _ & _ & _ & _ & _ & Hp & Hg).
    by split.
Defined.

(** ** Fatal conditions *)

(** How [create_multilayer_composition] can raise. *)
Lemma create_multilayer_composition_raise (env : Env) (fuel : nat) (m : MusicMixer)
    (g : rng) (num_layers : Z) (custom_samples_dir : option string) (e : exn) :
  (create_multilayer_composition env fuel m g num_layers custom_samples_dir).1.1
    = Raise e →
  (get_all_samples env m custom_samples_dir = []
   ∧ e = ValueError "No audio files found")
  ∨ (get_all_samples env m custom_samples_dir ≠ [] ∧ num_layers < 0
     ∧ e = ValueError "Sample larger than population or is negative").
Proof.
  unfold create_multilayer_composition.
  destruct (get_all_samples env m custom_samples_dir) as [|s samples] eqn:Es.
  { cbn [fst]. intros H. injection H as <-. by left. }
  destruct (classify_samples env m (s :: samples)) as [categories m1].
  destruct (available_categories m1 categories g) as [available g1].
  destruct available as [|c available]; [intros H; discriminate H|].
  pose proof (sample_raise (c :: available)
                (Z.min num_layers (Z.of_nat (length (c :: available)))) g1) as Hs.
  destruct (Random.sample (c :: available) _ g1) as [[selected|e'|] g2].
  - pose proof (build_layers_no_raise env fuel m1 categories
                  (get_compatible_keys (current_key m1)) selected g2) as Hb.
    destruct (build_layers env fuel m1 categories _ selected g2) as [[ls|e'|] g3];
      cbn [fst] in *; intros H; try discriminate H.
    by destruct (Hb e').
  - cbn [fst] in *. intros H. injection H as <-.
    destruct (Hs e' eq_refl) as [Hk ->]. right. split; [done|]. split; [lia|done].
  - cbn [fst]. intros H; discriminate H.
Qed.

Lemma create_multilayer_composition_negative (env : Env) (fuel : nat) (m : MusicMixer)
    (g : rng) (num_layers : Z) (custom_samples_dir : option string) :
  get_all_samples env m custom_samples_dir ≠ [] → num_layers < 0 →
  (create_multilayer_composition env fuel m g num_layers custom_samples_dir).1.1
    = Raise (ValueError "Sample larger than population or is negative").
Proof.
  intros Hne Hn. unfold create_multilayer_composition.
  destruct (get_all_samples env m custom_samples_dir) as [|s samples] eqn:Es; [done|].
  pose proof (classify_samples_populated env m (s :: samples) ltac:(done)) as Hpop.
  destruct (classify_samples env m (s :: samples)) as [categories m1].
  pose proof (available_categories_spec m1 categories g) as (_ & _ & _ & Hempty).
  destruct (available_categories m1 categories g) as [available g1].
  cbn [fst snd] in *.
  destruct available as [|c available]; [exfalso; by apply Hpop, Hempty|].
  unfold Random.sample.
  destruct (Z.ltb_spec (Z.min num_layers (Z.of_nat (length (c :: available)))) 0);
    [done|lia].
Qed.

(** C5, as stated, fails: a negative layer count over a library that is
    not empty makes [random.sample] raise, a third fatal condition. *)
Lemma negative_layer_count_is_fatal :
  (generate_complete_mix env_one_second 100 mixer_one_second rng_count (-1) None).1.1
    = Raise (ValueError "Sample larger than population or is negative")
  ∧ get_all_samples env_one_second mixer_one_second None
    = ["samples/kick_808_128bpm.wav"].
Proof. by vm_compute. Qed.

(** C5 (amended): composition over an empty sample set raises
    [ValueError], and [generate_complete_mix] raises when no layer
    survives; for a layer count that is not negative these are the only
    ways [generate_complete_mix] raises, whatever fails while a sample is
    processed.  A negative layer count over a non-empty sample set raises
    in [random.sample]. *)
Theorem fatal_conditions (env : Env) (fuel : nat) (m : MusicMixer) (g : rng)
    (num_layers : Z) (custom_samples_dir : option string) :
  let samples := get_all_samples env m custom_samples_dir in
  let composed :=
    (create_multilayer_composition env fuel m g num_layers custom_samples_dir).1.1 in
  let mixed :=
    (generate_complete_mix env fuel m g num_layers custom_samples_dir).1.1 in
  (samples = [] →
     composed = Raise (ValueError "No audio files found")
     ∧ mixed = Raise (ValueError "No audio files found"))
  ∧ (∀ info, composed = Ret ([], info) →
       mixed = Raise (ValueError "Could not create composition"))
  ∧ (0 ≤ num_layers → samples ≠ [] → ∀ e, composed ≠ Raise e)
  ∧ (0 ≤ num_layers → ∀ e, mixed = Raise e →
       (samples = [] ∧ e = ValueError "No audio files found")
       ∨ ((∃ info, composed = Ret ([], info))
          ∧ e = ValueError "Could not create composition"))
  ∧ (num_layers < 0 → samples ≠ [] →
       mixed = Raise (ValueError "Sample larger than population or is negative")).
Proof.
  intros samples composed mixed.
  assert (Hmixed : ∀ e, composed = Raise e → mixed = Raise e).
  { intros e. unfold composed, mixed, generate_complete_mix.
    destruct (create_multilayer_composition _ _ _ _ _ _) as [[[[ls i]|e'|] m1] g1];
      cbn [fst]; intros H; try discriminate H. by injection H as ->. }
  split; [|split; [|split; [|split]]].
  - intros Hs.
    assert (Hc : composed = Raise (ValueError "No audio files found")).
    { unfold composed, create_multilayer_composition. fold samples. by rewrite Hs. }
    split; [done|by apply Hmixed].
  - intros info. unfold composed, mixed, generate_complete_mix.
    destruct (create_multilayer_composition _ _ _ _ _ _) as [[[[ls i]|e'|] m1] g1];
      cbn [fst]; intros H; try discriminate H. by injection H as -> ->.
  - intros Hn Hne e He.
    apply create_multilayer_composition_raise in He as [[He _]|(_ & He & _)]; [done|lia].
  - intros Hn e. unfold mixed, generate_complete_mix.
    pose proof (create_multilayer_composition_raise env fuel m g num_layers
                  custom_samples_dir) as Hraise.
    pose proof (composition_volumes env fuel m g num_layers custom_samples_dir)
      as Hvol.
    fold composed in Hraise. unfold composed in *.
    destruct (create_multilayer_composition _ _ _ _ _ _) as [[[[ls i]|e'|] m1] g1];
      cbn [fst] in *.
    + destruct ls as [|l ls].
      { intros H. injection H as <-. right. split; [by exists i|done]. }
      pose proof (composition_mix_no_raise env (l :: ls) m1 fuel 30000) as Hgen.
      specialize (Hvol (l :: ls) i m1 g1 eq_refl).
      destruct (generate_mix_audio env fuel m1 (l :: ls) 30000) as [[p a]|e''|];
        intros H; try discriminate H.
      by specialize (Hgen e'' Hvol eq_refl).
    + intros H. injection H as <-.
      destruct (Hraise e' eq_refl) as [[Hs ->]|(_ & Hlt & _)]; [by left|lia].
    + intros H; discriminate H.
  - intros Hn Hne. apply Hmixed.
    by apply create_multilayer_composition_negative.
Qed.

(** A library whose only file cannot be decoded: the composition has no
    layer and the mix fails with the second fatal condition. *)
Lemma fatal_conditions_witness :
  (generate_complete_mix env_failing 100
     (MusicMixer_init env_failing "samples" 128 (Some "8A") false) rng_count 3 None).1.1
    = Raise (ValueError "Could not create composition").
Proof.
  apply (proj1 (proj2 (fatal_conditions env_failing 100
           (MusicMixer_init env_failing "samples" 128 (Some "8A") false)
           rng_count 3 None))
         (composition_info env_failing
            (classify_samples env_failing
               (MusicMixer_init env_failing "samples" 128 (Some "8A") false)
               ["samples/kick_808_128bpm.wav"]).2 [])).
  by vm_compute.
Defined.

(** ** Determinism on a library of one sample *)

Lemma get_bpm_target (env : Env) (m : MusicMixer) (p : string) :
  target_bpm (get_bpm env m p).2 = target_bpm m.
Proof. unfold get_bpm. by destruct (bpm_cache m !! p). Qed.

Lemma get_sample_key_target (m : MusicMixer) (p : string) :
  target_bpm (get_sample_key m p).2 = target_bpm m.
Proof. unfold get_sample_key. by destruct (key_cache m !! p). Qed.

(** Classifying a single sample gives one bucket with one entry. *)
Lemma classify_samples_single (env : Env) (m : MusicMixer) (s : string) :
  ∃ (bpm : Z) (key : option string) (m' : MusicMixer),
    classify_samples env m [s]
      = (<[sample_category s := [(s, bpm, key)]]> ∅, m')
    ∧ target_bpm m' = target_bpm m.
Proof.
  unfold classify_samples. cbn [classify_loop].
  pose proof (get_bpm_target env m s) as H1.
  destruct (get_bpm env m s) as [bpm m1].
  pose proof (get_sample_key_target m1 s) as H2.
  destruct (get_sample_key m1 s) as [key m2]. cbn [snd] in *.
  exists bpm, key, m2. split; [|congruence].
  unfold bucket. by rewrite lookup_empty.
Qed.

Lemma populated_single (c c' : string) (i : sample_info) :
  populated (<[c := [i]]> ∅) c' = bool_decide (c' = c).
Proof.
  unfold populated. rewrite lookup_insert.
  destruct (decide (c = c')) as [->|Hne].
  - by rewrite bool_decide_eq_true_2.
  - rewrite lookup_empty. by rewrite bool_decide_eq_false_2.
Qed.

Lemma bucket_single (c c' : string) (i : sample_info) :
  bucket (<[c := [i]]> ∅) c' = if decide (c = c') then [i] else [].
Proof.
  rewrite bucket_insert. destruct (decide (c = c')); [done|].
  unfold bucket. by rewrite lookup_empty.
Qed.

Lemma stochastic_inclusion_none (probabilities : list (string * Q))
    (categories : gmap string (list sample_info)) (order : list string) (g : rng) :
  (∀ c, c ∈ order → populated categories c = false) →
  stochastic_inclusion probabilities categories order g = ([], g).
Proof.
  induction order as [|c order IH]; intros H; [done|].
  cbn [stochastic_inclusion]. rewrite (H c) by left.
  apply IH. intros c' Hc'. apply H. by right.
Qed.

(** With one populated category the draws take one value from the source
    and the candidates are that category, whatever the value. *)
Lemma available_categories_single (m : MusicMixer) (c : string) (i : sample_info)
    (g : rng) :
  c ∈ priority_order →
  available_categories m (<[c := [i]]> ∅) g = ([c], (Random.random g).2).
Proof.
  intros Hc.
  pose proof priority_order_NoDup as Hnd.
  unfold available_categories, populated_categories.
  set (probabilities :=
         if experimental_mode m then EXPERIMENTAL_PROBABILITIES
         else STANDARD_PROBABILITIES).
  apply list_elem_of_split in Hc as (l1 & l2 & Hsplit). rewrite Hsplit in *.
  clear Hsplit.
  apply NoDup_app in Hnd as (_ & Hl1 & Hl2). apply NoDup_cons in Hl2 as [Hl2 _].
  assert (H1 : ∀ c', c' ∈ l1 → populated (<[c := [i]]> ∅) c' = false).
  { intros c' Hc'. rewrite populated_single. apply bool_decide_eq_false_2.
    intros ->. apply (Hl1 c); [done|left]. }
  assert (H2 : ∀ c', c' ∈ l2 → populated (<[c := [i]]> ∅) c' = false).
  { intros c' Hc'. rewrite populated_single. apply bool_decide_eq_false_2.
    by intros ->. }
  assert (Hf : filter (fun c' => populated (<[c := [i]]> ∅) c' = true) (l1 ++ c :: l2)
               = [c]).
  { rewrite filter_app, filter_cons.
    rewrite (populated_single c c), bool_decide_eq_true_2 by done.
    destruct (decide (true = true)); [|done].
    assert (Hnil : ∀ l, (∀ c', c' ∈ l → populated (<[c := [i]]> ∅) c' = false) →
                        filter (fun c' => populated (<[c := [i]]> ∅) c' = true) l = []).
    { clear. intros l. induction l as [|x l IH]; intros H; [done|].
      rewrite filter_cons, (H x) by left.
      destruct (decide (false = true)); [done|].
      apply IH. intros c' Hc'. apply H. by right. }
    by rewrite (Hnil l1 H1), (Hnil l2 H2). }
  rewrite Hf.
  assert (Hs : stochastic_inclusion probabilities (<[c := [i]]> ∅) (l1 ++ c :: l2) g
               = (if Qlt_bool (Random.random g).1 (probability probabilities c)
                  then [c] else [], (Random.random g).2)).
  { clear Hf Hl1 Hl2. induction l1 as [|x l1 IH].
    - cbn [app stochastic_inclusion].
      rewrite (populated_single c c), bool_decide_eq_true_2 by done.
      destruct (Random.random g) as [r g1].
      by rewrite (stochastic_inclusion_none _ _ l2 g1 H2).
    - cbn [app stochastic_inclusion]. rewrite (H1 x) by left.
      apply IH. intros c' Hc'. apply H1. by right. }
  rewrite Hs. by destruct (Qlt_bool _ _).
Qed.

Lemma samples_to_use_single (c : string) (compatible_keys : list (option string))
    (i : sample_info) :
  samples_to_use c compatible_keys [i] = [i].
Proof.
  unfold samples_to_use. rewrite filter_cons, filter_nil.
  by destruct (decide _).
Qed.

Lemma choice_single {A : Type} (x : A) (g : rng) :
  Random.choice [x] g = (Some x, (Random.next_draw g).2).
Proof.
  unfold Random.choice, Random.randbelow.
  destruct (Random.next_draw g) as [k g1]. cbn [snd length].
  by rewrite N.mod_1_r.
Qed.

(** Whether the audio of a layer is obtained depends on the file and on the
    target tempo, not on the tempo recorded for the sample. *)
Lemma layer_audio_shape (env : Env) (fuel : nat) (m1 m2 : MusicMixer) (s : string)
    (bpm1 bpm2 : Z) :
  target_bpm m1 = target_bpm m2 →
  match layer_audio env fuel m1 s bpm1, layer_audio env fuel m2 s bpm2 with
  | Ret _, Ret _ => True
  | Raise _, Raise _ => True
  | Timeout, Timeout => True
  | _, _ => False
  end.
Proof.
  intros Ht. unfold layer_audio. rewrite Ht.
  destruct (from_file env s) as [a|]; [|done].
  by destruct (optimize_audio_length fuel a (target_bpm m2)).
Qed.

Lemma build_layers_single (env : Env) (fuel : nat) (m1 m2 : MusicMixer)
    (c s : string) (bpm1 bpm2 : Z) (key1 key2 : option string)
    (keys1 keys2 : list (option string)) (selected : list string) (g : rng) :
  target_bpm m1 = target_bpm m2 →
  let r1 := build_layers env fuel m1 (<[c := [(s, bpm1, key1)]]> ∅) keys1 selected g in
  let r2 := build_layers env fuel m2 (<[c := [(s, bpm2, key2)]]> ∅) keys2 selected g in
  match r1.1, r2.1 with
  | Ret l1, Ret l2 => map selection l1 = map selection l2
  | Raise _, Raise _ => True
  | Timeout, Timeout => True
  | _, _ => False
  end ∧ r1.2 = r2.2.
Proof.
  intros Ht. revert g. induction selected as [|c' selected IH]; intros g; [done|].
  cbn [build_layers]. rewrite !bucket_single.
  destruct (decide (c = c')) as [<-|Hne].
  2: { cbn [samples_to_use filter list_filter Random.choice]. apply IH. }
  rewrite !samples_to_use_single, !choice_single.
  pose proof (layer_audio_shape env fuel m1 m2 s bpm1 bpm2 Ht) as Hshape.
  destruct (layer_audio env fuel m1 s bpm1) as [a1|e1|],
           (layer_audio env fuel m2 s bpm2) as [a2|e2|];
    try done; try apply IH.
  destruct (Random.uniform _ _ _) as [v g2].
  specialize (IH g2). cbn zeta in IH.
  destruct (build_layers env fuel m1 _ keys1 selected g2) as [[l1|e1|] g3],
           (build_layers env fuel m2 _ keys2 selected g2) as [[l2|e2|] g4];
    cbn [fst snd] in *; destruct IH as [IH1 IH2]; try done.
  split; [|done]. cbn [map selection category sample volume]. by rewrite IH1.
Qed.

(** C9: over a library of a single sample, two runs from the same state of
    the random source select the same category and sample with the same
    volume, end alike when they do not return, and leave the random source
    in the same state, whatever the two engines hold in their caches (and
    in their key and mode settings), provided they agree on the target
    tempo; the sample selected is the one of the library. *)
Theorem single_sample_deterministic (env : Env) (fuel : nat) (m1 m2 : MusicMixer)
    (g : rng) (num_layers : Z) (dir1 dir2 : option string) (s : string) :
  get_all_samples env m1 dir1 = [s] →
  get_all_samples env m2 dir2 = [s] →
  target_bpm m1 = target_bpm m2 →
  let r1 := create_multilayer_composition env fuel m1 g num_layers dir1 in
  let r2 := create_multilayer_composition env fuel m2 g num_layers dir2 in
  selections r1.1.1 = selections r2.1.1
  ∧ r1.2 = r2.2
  ∧ (∀ layers info, r1.1.1 = Ret (layers, info) →
       ∀ l, l ∈ layers → sample l = s ∧ category l = sample_category s).
Proof.
  intros Hs1 Hs2 Ht r1 r2.
  assert (Hsel : selections r1.1.1 = selections r2.1.1 ∧ r1.2 = r2.2).
  { unfold r1, r2, create_multilayer_composition. rewrite Hs1, Hs2.
    destruct (classify_samples_single env m1 s) as (bpm1 & key1 & m1' & -> & Ht1).
    destruct (classify_samples_single env m2 s) as (bpm2 & key2 & m2' & -> & Ht2).
    rewrite !available_categories_single by apply category_of_priority.
    destruct (Random.sample [sample_category s] _ (Random.random g).2)
      as [[selected|e|] g2]; [|done|done].
    pose proof (build_layers_single env fuel m1' m2' (sample_category s) s
                  bpm1 bpm2 key1 key2
                  (get_compatible_keys (current_key m1'))
                  (get_compatible_keys (current_key m2'))
                  selected g2 ltac:(congruence)) as Hb.
    cbn zeta in Hb.
    pose proof (build_layers_no_raise env fuel m1' (<[sample_category s := [(s, bpm1, key1)]]> ∅)
                  (get_compatible_keys (current_key m1')) selected g2) as Hn1.
    destruct (build_layers env fuel m1' _ _ selected g2) as [[l1|e1|] g3],
             (build_layers env fuel m2' _ _ selected g2) as [[l2|e2|] g4];
      cbn [fst snd selections] in *; destruct Hb as [Hb1 Hb2]; try done.
    all: try by destruct (Hn1 e1).
    all: try by rewrite Hb1, Hb2.
    all: try by rewrite Hb2. }
  split; [apply Hsel|]. split; [apply Hsel|].
  intros layers info Hret l Hl.
  destruct r1 as [[o m'] g'] eqn:Er. cbn [fst] in Hret. subst o.
  apply create_multilayer_composition_ret in Er
    as (_ & _ & _ & selected & g2 & _ & Hbuild).
  apply build_layers_ret in Hbuild as (_ & _ & Hin).
  rewrite Forall_forall in Hin. destruct (Hin l Hl) as (bpm & key & Hb).
  rewrite Hs1 in Hb.
  destruct (classify_samples_single env m1 s) as (bpm1 & key1 & m1' & Hc & _).
  rewrite Hc in Hb. cbn [fst] in Hb. rewrite bucket_single in Hb.
  destruct (decide (sample_category s = category l)) as [Hcat|_];
    [|by apply elem_of_nil in Hb].
  apply list_elem_of_singleton in Hb. injection Hb as -> _ _. done.
Qed.

(** The engine of the examples against one whose caches already hold
    other values for the sample. *)
Lemma single_sample_deterministic_witness :
  let m2 :=
    set_key_cache
      (set_bpm_cache mixer_one_second {[ "samples/kick_808_128bpm.wav" := 95 ]})
      {[ "samples/kick_808_128bpm.wav" := Some "3B" ]} in
  let r1 := create_multilayer_composition env_one_second 100 mixer_one_second
              rng_count 3 None in
  let r2 := create_multilayer_composition env_one_second 100 m2 rng_count 3 None in
  selections r1.1.1 = selections r2.1.1
  ∧ r1.2 = r2.2
  ∧ (∀ layers info, r1.1.1 = Ret (layers, info) →
       ∀ l, l ∈ layers →
         sample l = "samples/kick_808_128bpm.wav"
         ∧ category l = sample_category "samples/kick_808_128bpm.wav").
Proof.
  apply (single_sample_deterministic env_one_second 100 mixer_one_second _
           rng_count 3 None None "samples/kick_808_128bpm.wav");
    by vm_compute.
Defined.

(** * Further properties of the code *)

(** ** File-name extraction *)

(** X1: [extract_bpm_from_filename] only returns tempos of the accepted range:
    a number outside [80, 180] is skipped. *)
Theorem extract_bpm_in_range (filename : string) (bpm : Z) :
  extract_bpm_from_filename filename = Some bpm → 80 ≤ bpm ≤ 180.
Proof.
  unfold extract_bpm_from_filename. generalize bpm_patterns.
  intros patterns. induction patterns as [|pattern patterns IH]; [done|].
  cbn [first_bpm]. destruct (Re.search pattern filename) as [g|]; [|exact IH].
  destruct (Z.leb_spec 80 (Py.int g)), (Z.leb_spec (Py.int g) 180);
    cbn [andb]; try exact IH.
  intros Hg. apply (inj Some) in Hg. lia.
Qed.

Lemma extract_bpm_in_range_witness :
  extract_bpm_from_filename "track_128bpm.wav" = Some 128 ∧ 80 ≤ 128 ≤ 180.
Proof.
  assert (H : extract_bpm_from_filename "track_128bpm.wav" = Some 128)
    by by vm_compute.
  split; [exact H|]. exact (extract_bpm_in_range "track_128bpm.wav" 128 H).
Defined.

Lemma dict_mem_keys {V : Type} (k : string) (d : list (string * V)) :
  Py.dict_mem k d = true ↔ k ∈ map fst d.
Proof.
  unfold Py.dict_mem. induction d as [|[k' v] d IH]; cbn [Py.dict_get map fst].
  { split; [done|]. intros H. by apply elem_of_nil in H. }
  rewrite elem_of_cons. destruct (String.eqb_spec k' k) as [->|Hne].
  - split; [by left|done].
  - rewrite IH. split; [by right|]. intros [->|H]; done.
Qed.

Lemma first_camelot_wheel (patterns : list Re.regex) (filename key : string) :
  first_camelot patterns filename = Some key → Py.dict_mem key CAMELOT_WHEEL = true.
Proof.
  induction patterns as [|pattern patterns IH]; [done|].
  cbn [first_camelot]. destruct (Re.search pattern filename) as [g|]; [|exact IH].
  destruct (Py.dict_mem (Py.upper g) CAMELOT_WHEEL) eqn:E; [|exact IH].
  intros H. apply (inj Some) in H. by subst key.
Qed.

Lemma first_musical_value (table : list (string * string)) (lowered key : string) :
  first_musical table lowered = Some key → key ∈ map snd table.
Proof.
  induction table as [|[p k] table IH]; [done|].
  cbn [first_musical map snd]. destruct (Py.contains p lowered).
  - intros H. apply (inj Some) in H. subst. left.
  - intros H. right. by apply IH.
Qed.

Lemma musical_keys_wheel (key : string) :
  key ∈ map snd musical_keys → Py.dict_mem key CAMELOT_WHEEL = true.
Proof.
  intros Hk.
  assert (Hb : forallb (fun k => Py.dict_mem k CAMELOT_WHEEL) (map snd musical_keys)
               = true) by by vm_compute.
  rewrite forallb_forall in Hb. apply Hb. by apply list_elem_of_In.
Qed.

Lemma extract_key_from_filename_wheel (filename key : string) :
  extract_key_from_filename filename = Some key →
  Py.dict_mem key CAMELOT_WHEEL = true.
Proof.
  unfold extract_key_from_filename.
  destruct (first_camelot camelot_patterns filename) as [k|] eqn:E.
  { intros H. apply (inj Some) in H. subst k. by eapply first_camelot_wheel. }
  intros H. by apply first_musical_value, musical_keys_wheel in H.
Qed.

(** X2: Whatever the file name, a key extracted from it is one of the
    twenty-four keys of the Camelot wheel: a code matched by a pattern is
    checked against the wheel, and the table of key names only holds wheel
    keys; a code that is not on the wheel, such as 13A, is passed over. *)
Theorem extract_key_in_wheel (filename key : string) :
  extract_key_from_filename filename = Some key →
  Py.dict_mem key CAMELOT_WHEEL = true
  ∧ extract_key_from_filename "loop 13A.wav" = None.
Proof.
  intros H. split; [by eapply extract_key_from_filename_wheel|by vm_compute].
Qed.

Lemma extract_key_in_wheel_witness :
  extract_key_from_filename "pad_key_12b.wav" = Some "12B"
  ∧ Py.dict_mem "12B" CAMELOT_WHEEL = true.
Proof.
  assert (H : extract_key_from_filename "pad_key_12b.wav" = Some "12B")
    by by vm_compute.
  split; [exact H|]. exact (proj1 (extract_key_in_wheel "pad_key_12b.wav" "12B" H)).
Defined.

(** ** Grid snapping *)

(** X3: The tempo derived from an analysis result is always one of the
    twenty-six grid values, also for an infinite estimate or a NaN (which
    give 80); a result that is a grid value is kept; the octave correction
    is applied once, so an estimate of 30 gives 80 and not 120. *)
Theorem snap_bpm_on_grid :
  (∀ bpm : float, snap_bpm bpm ∈ common_bpms)
  ∧ (∀ x : Z, x ∈ common_bpms → snap_bpm (float_of_Z x) = x)
  ∧ snap_bpm PrimFloat.nan = 80
  ∧ snap_bpm PrimFloat.infinity = 80
  ∧ snap_bpm (float_of_Z 30) = 80
  ∧ snap_bpm (float_of_Z 256) = 128.
Proof.
  split; [|split; [|by vm_compute]].
  - intros bpm. unfold snap_bpm.
    set (b := if PrimFloat.ltb bpm _ then _ else _). clearbody b.
    unfold common_bpms at 1.
    match goal with
    | |- min_by ?f ?x ?l ∈ _ => destruct (min_by_elem f x l) as [->|H]
    end; [left|by right].
  - intros x Hx.
    assert (Hb : forallb (fun x => snap_bpm (float_of_Z x) =? x) common_bpms = true)
      by by vm_compute.
    rewrite forallb_forall in Hb. apply Z.eqb_eq, Hb. by apply list_elem_of_In.
Qed.

(** ** Harmonic compatibility *)

(** X4: Over the keys of the wheel, compatibility is reflexive and symmetric,
    the compatible keys of a key are four different keys of the wheel, and
    the relation is not transitive (8A goes with 9A, 9A with 10A, 8A not
    with 10A). *)
Theorem compatible_keys_symmetric (k1 k2 : string) :
  Py.dict_mem k1 CAMELOT_WHEEL = true →
  Py.dict_mem k2 CAMELOT_WHEEL = true →
  compatible k1 k1 = true
  ∧ compatible k1 k2 = compatible k2 k1
  ∧ (compatible k1 k2 = true → Py.dict_mem k2 CAMELOT_WHEEL = true)
  ∧ NoDup (get_compatible_keys (Some k1))
  ∧ length (get_compatible_keys (Some k1)) = 4%nat
  ∧ (∀ k, Some k ∈ get_compatible_keys (Some k1) → Py.dict_mem k CAMELOT_WHEEL = true)
  ∧ (compatible "8A" "9A" = true ∧ compatible "9A" "10A" = true
     ∧ compatible "8A" "10A" = false).
Proof.
  intros H1 H2.
  apply dict_mem_keys, list_elem_of_In in H1.
  apply dict_mem_keys, list_elem_of_In in H2.
  assert (Hb : forallb (fun a =>
                 compatible a a
                 && bool_decide (NoDup (get_compatible_keys (Some a)))
                 && (length (get_compatible_keys (Some a)) =? 4)%nat
                 && forallb (fun o => match o with
                                      | Some k => Py.dict_mem k CAMELOT_WHEEL
                                      | None => false
                                      end) (get_compatible_keys (Some a))
                 && forallb (fun b => Bool.eqb (compatible a b) (compatible b a))
                            (map fst CAMELOT_WHEEL))
               (map fst CAMELOT_WHEEL) = true) by by vm_compute.
  rewrite forallb_forall in Hb. specialize (Hb k1 H1).
  apply andb_true_iff in Hb as [Hb Hsym].
  apply andb_true_iff in Hb as [Hb Hwheel].
  apply andb_true_iff in Hb as [Hb Hlen].
  apply andb_true_iff in Hb as [Hrefl Hnd].
  rewrite forallb_forall in Hsym. specialize (Hsym k2 H2).
  apply Bool.eqb_prop in Hsym.
  split; [done|]. split; [done|]. split.
  { intros _. by apply dict_mem_keys, list_elem_of_In. }
  split; [by apply (bool_decide_unpack (NoDup (get_compatible_keys (Some k1)))),
                   Is_true_true|].
  split; [by apply Nat.eqb_eq|].
  split; [|by vm_compute].
  intros k Hk. rewrite forallb_forall in Hwheel.
  by apply (Hwheel (Some k)), list_elem_of_In.
Qed.

Lemma compatible_keys_symmetric_witness :
  compatible "12B" "1B" = compatible "1B" "12B"
  ∧ NoDup (get_compatible_keys (Some "12B")).
Proof.
  pose proof (compatible_keys_symmetric "12B" "1B" eq_refl eq_refl)
    as (_ & Hsym & _ & Hnd & _).
  by split.
Defined.

(** ** The metadata caches *)

Lemma get_bpm_lookup (env : Env) (m : MusicMixer) (p : string) :
  bpm_cache (get_bpm env m p).2 !! p = Some (get_bpm env m p).1.
Proof.
  unfold get_bpm. destruct (bpm_cache m !! p) eqn:E; [done|].
  cbn. apply lookup_insert_eq.
Qed.

Lemma get_bpm_other (env : Env) (m : MusicMixer) (p q : string) :
  q ≠ p → bpm_cache (get_bpm env m p).2 !! q = bpm_cache m !! q.
Proof.
  intros Hne. unfold get_bpm. destruct (bpm_cache m !! p) eqn:E; [done|].
  cbn. by apply lookup_insert_ne.
Qed.

Lemma get_bpm_mono (env : Env) (m : MusicMixer) (p q : string) (b : Z) :
  bpm_cache m !! q = Some b → bpm_cache (get_bpm env m p).2 !! q = Some b.
Proof.
  intros Hq. destruct (decide (q = p)) as [->|Hne].
  - unfold get_bpm. by rewrite Hq.
  - by rewrite get_bpm_other.
Qed.

Lemma get_bpm_hit (env : Env) (m : MusicMixer) (p : string) (b : Z) :
  bpm_cache m !! p = Some b → get_bpm env m p = (b, m).
Proof. intros H. unfold get_bpm. by rewrite H. Qed.

Lemma get_bpm_frame (env : Env) (m : MusicMixer) (p : string) :
  key_cache (get_bpm env m p).2 = key_cache m.
Proof. unfold get_bpm. by destruct (bpm_cache m !! p). Qed.

Lemma get_sample_key_lookup (m : MusicMixer) (p : string) :
  key_cache (get_sample_key m p).2 !! p = Some (get_sample_key m p).1.
Proof.
  unfold get_sample_key. destruct (key_cache m !! p) eqn:E; [done|].
  cbn. apply lookup_insert_eq.
Qed.

Lemma get_sample_key_other (m : MusicMixer) (p q : string) :
  q ≠ p → key_cache (get_sample_key m p).2 !! q = key_cache m !! q.
Proof.
  intros Hne. unfold get_sample_key. destruct (key_cache m !! p) eqn:E; [done|].
  cbn. by apply lookup_insert_ne.
Qed.

Lemma get_sample_key_mono (m : MusicMixer) (p q : string) (k : option string) :
  key_cache m !! q = Some k → key_cache (get_sample_key m p).2 !! q = Some k.
Proof.
  intros Hq. destruct (decide (q = p)) as [->|Hne].
  - unfold get_sample_key. by rewrite Hq.
  - by rewrite get_sample_key_other.
Qed.

Lemma get_sample_key_hit (m : MusicMixer) (p : string) (k : option string) :
  key_cache m !! p = Some k → get_sample_key m p = (k, m).
Proof. intros H. unfold get_sample_key. by rewrite H. Qed.

Lemma get_sample_key_frame (m : MusicMixer) (p : string) :
  bpm_cache (get_sample_key m p).2 = bpm_cache m.
Proof. unfold get_sample_key. by destruct (key_cache m !! p). Qed.

(** X5: The tempo cache is written once per path: after [get_bpm] the path is
    cached with the value returned, no other entry has changed, and a second
    call returns the same value and leaves the engine as it is; the key
    cache and the configuration are not touched. *)
Theorem get_bpm_write_once (env : Env) (m : MusicMixer) (file_path : string) :
  let r := get_bpm env m file_path in
  bpm_cache r.2 !! file_path = Some r.1
  ∧ (∀ q b, bpm_cache m !! q = Some b → bpm_cache r.2 !! q = Some b)
  ∧ (∀ q, q ≠ file_path → bpm_cache r.2 !! q = bpm_cache m !! q)
  ∧ get_bpm env r.2 file_path = r
  ∧ key_cache r.2 = key_cache m
  ∧ target_bpm r.2 = target_bpm m
  ∧ current_key r.2 = current_key m.
Proof.
  intros r. unfold r.
  split; [apply get_bpm_lookup|].
  split; [intros q b; apply get_bpm_mono|].
  split; [intros q; apply get_bpm_other|].
  split.
  { rewrite (get_bpm_hit env _ file_path _ (get_bpm_lookup env m file_path)).
    by destruct (get_bpm env m file_path). }
  split; [apply get_bpm_frame|].
  unfold get_bpm. by destruct (bpm_cache m !! file_path).
Qed.

(** X6: The key cache is written once per path as well, and an absent key is
    cached like any other result: after [get_sample_key] the path is cached
    with the result, [None] included, and a second call returns it without
    looking at the file name again. *)
Theorem get_sample_key_write_once (m : MusicMixer) (file_path : string) :
  let r := get_sample_key m file_path in
  key_cache r.2 !! file_path = Some r.1
  ∧ (∀ q k, key_cache m !! q = Some k → key_cache r.2 !! q = Some k)
  ∧ (∀ q, q ≠ file_path → key_cache r.2 !! q = key_cache m !! q)
  ∧ get_sample_key r.2 file_path = r
  ∧ bpm_cache r.2 = bpm_cache m
  ∧ (key_cache m !! file_path = None →
     r.1 = None → key_cache r.2 !! file_path = Some None)
  ∧ (∀ k, r.1 = Some k → key_cache m !! file_path = None →
       Py.dict_mem k CAMELOT_WHEEL = true).
Proof.
  intros r. unfold r.
  split; [apply get_sample_key_lookup|].
  split; [intros q k; apply get_sample_key_mono|].
  split; [intros q; apply get_sample_key_other|].
  split.
  { rewrite (get_sample_key_hit _ file_path _ (get_sample_key_lookup m file_path)).
    by destruct (get_sample_key m file_path). }
  split; [apply get_sample_key_frame|].
  split.
  { intros _ Hnone. rewrite get_sample_key_lookup. by rewrite Hnone. }
  intros k Hk Hmiss. unfold get_sample_key in Hk. rewrite Hmiss in Hk. cbn in Hk.
  destruct (extract_key_from_filename (Py.lower (OsPath.basename file_path)))
    as [k1|] eqn:E1.
  - apply (inj Some) in Hk. subst k1. by eapply extract_key_from_filename_wheel.
  - by eapply extract_key_from_filename_wheel.
Qed.

(** ** Classification and the caches *)

Lemma classify_loop_fold (env : Env) (samples : list string) (m : MusicMixer)
    (categories : gmap string (list sample_info)) :
  classify_loop env m samples categories
    = (fold_left add_info (sample_infos env m samples) categories,
       resolved_state env m samples).
Proof.
  revert m categories. induction samples as [|s samples IH]; intros m categories; [done|].
  cbn [classify_loop sample_infos resolved_state].
  destruct (get_bpm env m s) as [bpm m1]. cbn [snd].
  destruct (get_sample_key m1 s) as [key m2].
  cbn [snd fold_left]. by rewrite IH.
Qed.

Lemma cached_step (env : Env) (m : MusicMixer) (p : string) (i : sample_info) :
  cached m i → cached (get_sample_key (get_bpm env m p).2 p).2 i.
Proof.
  intros [Hb Hk]. split.
  - rewrite get_sample_key_frame. by apply get_bpm_mono.
  - apply get_sample_key_mono. by rewrite get_bpm_frame.
Qed.

Lemma resolved_state_cached (env : Env) (samples : list string) (m : MusicMixer)
    (i : sample_info) :
  cached m i → cached (resolved_state env m samples) i.
Proof.
  revert m. induction samples as [|s samples IH]; intros m Hi; [done|].
  cbn [resolved_state]. by apply IH, cached_step.
Qed.

(** Every triple built by a run is in the caches the run leaves. *)
Lemma sample_infos_cached (env : Env) (samples : list string) (m : MusicMixer) :
  Forall (cached (resolved_state env m samples)) (sample_infos env m samples).
Proof.
  revert m. induction samples as [|s samples IH]; intros m; [constructor|].
  cbn [sample_infos resolved_state].
  pose proof (get_bpm_lookup env m s) as Hb.
  destruct (get_bpm env m s) as [bpm m1]. cbn [fst snd] in *.
  pose proof (get_sample_key_lookup m1 s) as Hk.
  pose proof (get_sample_key_frame m1 s) as Hf.
  destruct (get_sample_key m1 s) as [key m2]. cbn [fst snd] in *.
  constructor; [|apply IH].
  apply resolved_state_cached. split; cbn; [by rewrite Hf|done].
Qed.

(** On an engine that has every triple cached, resolving the samples
    again reads the triples back and changes nothing. *)
Lemma sample_infos_from_cache (env : Env) (infos : list sample_info) (m : MusicMixer) :
  Forall (cached m) infos →
  sample_infos env m (map info_path infos) = infos
  ∧ resolved_state env m (map info_path infos) = m.
Proof.
  induction infos as [|[[s b] k] infos IH]; intros Hall; [done|].
  apply Forall_cons in Hall as [[Hb Hk] Hall]. cbn in Hb, Hk.
  cbn [map info_path sample_infos resolved_state fst].
  rewrite (get_bpm_hit env m s b Hb). cbn [snd].
  rewrite (get_sample_key_hit m s k Hk). cbn [snd].
  destruct (IH Hall) as [-> ->]. done.
Qed.

(** X7: Classifying the same samples a second time gives the same buckets and
    leaves the caches as the first run left them; after a run every sample
    has an entry in both caches. *)
Theorem classify_samples_idempotent (env : Env) (m : MusicMixer) (samples : list string) :
  let r := classify_samples env m samples in
  classify_samples env r.2 samples = r
  ∧ (∀ s, s ∈ samples →
       is_Some (bpm_cache r.2 !! s) ∧ is_Some (key_cache r.2 !! s))
  ∧ (∀ c i, i ∈ bucket r.1 c →
       bpm_cache r.2 !! info_path i = Some i.1.2
       ∧ key_cache r.2 !! info_path i = Some i.2).
Proof.
  intros r. unfold r, classify_samples. rewrite !classify_loop_fold. cbn [fst snd].
  pose proof (sample_infos_cached env samples m) as Hc.
  pose proof (sample_infos_from_cache env _ _ Hc) as [Hi Hs].
  rewrite sample_infos_paths in Hi, Hs.
  split; [by rewrite Hi, Hs|].
  rewrite Forall_forall in Hc.
  split.
  - intros s Hs'. rewrite <- (sample_infos_paths env m samples) in Hs'.
    apply list_elem_of_fmap in Hs' as (i & -> & Hi').
    destruct (Hc i Hi') as [Hb Hk]. by rewrite Hb, Hk.
  - intros c i Hin. apply Hc.
    pose proof (classify_samples_bucket env m samples c) as Hbk.
    unfold classify_samples in Hbk. rewrite classify_loop_fold in Hbk.
    cbn [fst] in Hbk. rewrite Hbk in Hin.
    by apply list_elem_of_filter in Hin as [_ Hin].
Qed.

(** ** Loop normalisation *)

Lemma ideal_length_value (p : positive) :
  (inject_Z 60000 / inject_Z (Zpos p) * inject_Z 4 * inject_Z 4)%Q = (960000 # p).
Proof.
  unfold Qdiv, Qmult, Qinv, inject_Z. cbn [Qnum Qden].
  rewrite !Pos.mul_1_r. reflexivity.
Qed.

(** X8: [optimize_audio_length] raises [ZeroDivisionError] for a target tempo of
    zero; for a positive tempo and a segment of positive length it returns:
    the segment itself when it lasts four bars ([960000 / target_bpm] ms) or
    more, and otherwise, for a tempo that divides 960000 (so that the four
    bars are a whole number of milliseconds: 7500 ms at 128 BPM), a segment
    of exactly four bars. *)
Theorem optimize_audio_length_four_bars (a : AudioSegment) (target_bpm : Z) :
  0 < target_bpm → (0 < length_ms a)%N →
  (∀ fuel, optimize_audio_length fuel a 0 = Raise ZeroDivisionError)
  ∧ ∃ fuel0, ∀ fuel, (fuel0 ≤ fuel)%nat →
      ∃ r, optimize_audio_length fuel a target_bpm = Ret r
           ∧ (960000 ≤ Z.of_N (length_ms a) * target_bpm → r = a)
           ∧ (Z.of_N (length_ms a) * target_bpm < 960000 →
              960000 mod target_bpm = 0 →
              Z.of_N (length_ms r) * target_bpm = 960000).
Proof.
  intros Ht Hpos. split; [done|].
  destruct target_bpm as [|p|p]; try lia.
  unfold optimize_audio_length. rewrite ideal_length_value.
  exists (S (Z.to_nat (Qceiling (960000 # p)))). intros fuel Hfuel.
  cbn [Z.eqb].
  assert (Hlt : ∀ x : AudioSegment,
            Qlt_bool (len_Q x) (960000 # p) = true
            ↔ Z.of_N (length_ms x) * Zpos p < 960000).
  { intros x. rewrite Qlt_bool_true. unfold Qlt, len_Q, inject_Z. cbn [Qnum Qden]. lia. }
  assert (Hdiv : ∀ z, (z * Zpos p < 960000 → z ≤ 960000 / Zpos p)
                      ∧ (¬ z * Zpos p < 960000 → 960000 / Zpos p ≤ z)).
  { intros z.
    pose proof (Z.div_mod 960000 (Zpos p) ltac:(lia)) as Hdm.
    pose proof (Z.mod_pos_bound 960000 (Zpos p) ltac:(lia)) as Hmod.
    set (q := 960000 / Zpos p) in *. set (r := 960000 mod Zpos p) in *.
    clearbody q r. split; intros H; nia. }
  destruct (Qlt_bool (len_Q a) (960000 # p)) eqn:E.
  - apply Hlt in E.
    destruct (repeat_append_terminates a (960000 # p) fuel Pydub.empty Hpos)
      as (r & -> & Hstop & _).
    { cbn [Pydub.empty length_ms]. lia. }
    exists (Pydub.slice_to r (Qtrunc (960000 # p))).
    split; [done|].
    assert (Hr : ¬ Z.of_N (length_ms r) * Zpos p < 960000).
    { intros Hr. apply Hlt in Hr. congruence. }
    unfold Qtrunc. cbn [Qnum Qden]. rewrite Z.quot_div_nonneg by lia.
    pose proof (Z.div_pos 960000 (Zpos p) ltac:(lia) ltac:(lia)) as Hq.
    split; [lia|]. intros _ Hmod.
    unfold Pydub.slice_to. cbn [length_ms].
    destruct (Z.ltb_spec (960000 / Zpos p) 0); [lia|].
    pose proof (proj2 (Hdiv (Z.of_N (length_ms r))) Hr).
    pose proof (Z.div_mod 960000 (Zpos p) ltac:(lia)) as Hdm.
    rewrite Hmod in Hdm. lia.
  - exists a. split; [done|].
    assert (Ha : ¬ Z.of_N (length_ms a) * Zpos p < 960000).
    { intros Ha. apply Hlt in Ha. congruence. }
    split; [done|lia].
Qed.

Lemma optimize_audio_length_four_bars_witness :
  ∃ fuel0, ∀ fuel, (fuel0 ≤ fuel)%nat →
    ∃ r, optimize_audio_length fuel (Audio 1000 44100) 128 = Ret r
         ∧ Z.of_N (length_ms r) = 7500.
Proof.
  destruct (optimize_audio_length_four_bars (Audio 1000 44100) 128
              ltac:(lia) ltac:(done)) as [_ [fuel0 H]].
  exists fuel0. intros fuel Hfuel. destruct (H fuel Hfuel) as (r & Hr & _ & Hlen).
  exists r. split; [done|].
  specialize (Hlen ltac:(cbn; lia) ltac:(reflexivity)). lia.
Defined.

(** ** Sample selection *)

Lemma samples_to_use_spec (c : string) (compatible_keys : list (option string))
    (infos : list sample_info) (i : sample_info) :
  i ∈ samples_to_use c compatible_keys infos →
  i ∈ infos
  ∧ (harmonic c compatible_keys i
     ∨ ∀ i', i' ∈ infos → ¬ harmonic c compatible_keys i').
Proof.
  unfold samples_to_use, harmonic.
  destruct (filter _ infos) as [|x l] eqn:E.
  - intros Hi. split; [done|]. right. intros i' Hi' Hh.
    enough (Hin : i' ∈ @nil sample_info) by (by apply elem_of_nil in Hin).
    rewrite <- E. apply list_elem_of_filter. by split.
  - rewrite <- E. intros Hi. apply list_elem_of_filter in Hi as [Hh Hi].
    split; [done|by left].
Qed.

Lemma choice_elem {A : Type} (seq : list A) (g : rng) (x : A) :
  (Random.choice seq g).1 = Some x → x ∈ seq.
Proof.
  unfold Random.choice. destruct seq as [|y seq]; [done|].
  destruct (Random.randbelow _ g) as [j g']. cbn [fst].
  apply list_elem_of_lookup_2.
Qed.

Lemma build_layers_choice (env : Env) (fuel : nat) (m : MusicMixer)
    (categories : gmap string (list sample_info))
    (compatible_keys : list (option string)) (selected : list string)
    (g g' : rng) (layers : list Layer) :
  build_layers env fuel m categories compatible_keys selected g = (Ret layers, g') →
  Forall (fun l => (sample l, original_bpm l, key l)
                     ∈ samples_to_use (category l) compatible_keys
                         (bucket categories (category l))) layers.
Proof.
  revert g g' layers. induction selected as [|c selected IH]; intros g g' layers.
  { intros H. injection H as <- <-. constructor. }
  cbn [build_layers].
  pose proof (choice_elem (samples_to_use c compatible_keys (bucket categories c)) g)
    as Hc.
  destruct (Random.choice _ g) as [[[[sample_path bpm] skey]|] g1]; [|apply IH].
  specialize (Hc _ eq_refl).
  destruct (layer_audio env fuel m sample_path bpm) as [a|e|];
    [|apply IH|intros H; discriminate H].
  destruct (Random.uniform _ _ g1) as [v g2].
  destruct (build_layers env fuel m categories compatible_keys selected g2)
    as [[ls|e|] g3] eqn:Eb; intros H; try discriminate H.
  injection H as <- <-. constructor; [exact Hc|by eapply IH].
Qed.

(** X9: Every layer of a returned composition carries a sample of the bucket
    of its category, with the tempo and key recorded for it there; the
    sample passes the harmonic test (unpitched category, no key, or a key
    compatible with the current key) unless no sample of the bucket does. *)
Theorem selected_samples_compatible (env : Env) (fuel : nat) (m : MusicMixer)
    (g : rng) (num_layers : Z) (custom_samples_dir : option string)
    (layers : list Layer) (info : CompositionInfo) (m' : MusicMixer) (g' : rng) :
  create_multilayer_composition env fuel m g num_layers custom_samples_dir
    = (Ret (layers, info), m', g') →
  let categories :=
    (classify_samples env m (get_all_samples env m custom_samples_dir)).1 in
  let compatible_keys := get_compatible_keys (current_key m') in
  ∀ l, l ∈ layers →
    (sample l, original_bpm l, key l) ∈ bucket categories (category l)
    ∧ sample_category (sample l) = category l
    ∧ (harmonic (category l) compatible_keys (sample l, original_bpm l, key l)
       ∨ ∀ i, i ∈ bucket categories (category l) →
           ¬ harmonic (category l) compatible_keys i).
Proof.
  intros Hret categories compatible_keys l Hl.
  apply create_multilayer_composition_ret in Hret
    as (_ & -> & _ & selected & g2 & _ & Hbuild).
  apply build_layers_choice in Hbuild. rewrite Forall_forall in Hbuild.
  specialize (Hbuild l Hl).
  apply samples_to_use_spec in Hbuild as [Hin Hh].
  split; [done|]. split; [|done].
  unfold categories in Hin. rewrite classify_samples_bucket in Hin.
  by apply list_elem_of_filter in Hin as [Hc _].
Qed.

Lemma selected_samples_compatible_witness :
  let m := MusicMixer_init env_two_pads "samples" 128 (Some "8A") false in
  let r := create_multilayer_composition env_two_pads 100 m rng_count 3 None in
  ∃ layers info, r.1.1 = Ret (layers, info)
    ∧ map sample layers = ["samples/pad 9A.wav"]
    ∧ ∀ l, l ∈ layers → sample_category (sample l) = category l.
Proof.
  intros m r.
  assert (H0 : ∃ layers info m' g',
             r = (Ret (layers, info), m', g')
             ∧ map sample layers = ["samples/pad 9A.wav"]).
  { vm_compute. do 4 eexists. split; reflexivity. }
  destruct H0 as (layers & info & m' & g' & Er & Hs).
  pose proof (selected_samples_compatible env_two_pads 100 m rng_count 3 None
                layers info m' g' Er) as H.
  exists layers, info. rewrite Er. split; [done|]. split; [done|].
  intros l Hl. by destruct (H l Hl) as (_ & Hc & _).
Defined.

(** ** The complete mix *)

Lemma mix_layers_length (fuel : nat) (layers : list Layer) (duration_ms : Z)
    (mix_audio r : AudioSegment) :
  mix_layers fuel layers duration_ms mix_audio = Ret r →
  length_ms r = length_ms mix_audio.
Proof.
  revert mix_audio. induction layers as [|l layers IH]; intros mix_audio.
  { intros H. by injection H as <-. }
  cbn [mix_layers]. destruct (Qle_bool (volume l) 0); [intros H; discriminate H|].
  destruct (repeat_append _ _ _ _) as [looped|]; [|intros H; discriminate H].
  intros H. by rewrite (IH _ H).
Qed.

Lemma get_bpm_config (env : Env) (m : MusicMixer) (p : string) :
  let m' := (get_bpm env m p).2 in
  target_bpm m' = target_bpm m ∧ current_key m' = current_key m
  ∧ experimental_mode m' = experimental_mode m ∧ temp_dir m' = temp_dir m
  ∧ samples_dir m' = samples_dir m.
Proof. unfold get_bpm. by destruct (bpm_cache m !! p). Qed.

Lemma get_sample_key_config (m : MusicMixer) (p : string) :
  let m' := (get_sample_key m p).2 in
  target_bpm m' = target_bpm m ∧ current_key m' = current_key m
  ∧ experimental_mode m' = experimental_mode m ∧ temp_dir m' = temp_dir m
  ∧ samples_dir m' = samples_dir m.
Proof. unfold get_sample_key. by destruct (key_cache m !! p). Qed.

(** Classification changes the caches only. *)
Lemma classify_samples_config (env : Env) (samples : list string) (m : MusicMixer) :
  let m' := (classify_samples env m samples).2 in
  target_bpm m' = target_bpm m ∧ current_key m' = current_key m
  ∧ experimental_mode m' = experimental_mode m ∧ temp_dir m' = temp_dir m
  ∧ samples_dir m' = samples_dir m.
Proof.
  unfold classify_samples. rewrite classify_loop_fold. cbn [snd].
  revert m. induction samples as [|s samples IH]; intros m; [done|].
  cbn [resolved_state].
  destruct (IH (get_sample_key (get_bpm env m s).2 s).2) as (-> & -> & -> & -> & ->).
  destruct (get_sample_key_config (get_bpm env m s).2 s) as (-> & -> & -> & -> & ->).
  apply get_bpm_config.
Qed.

(** X10: A mix that [generate_complete_mix] returns lasts exactly 30000 ms; its
    descriptor has at least one and at most [num_layers] layers and carries
    the engine's target tempo, key and mode; the file is
    [mix_<time>.wav] in the engine's temporary directory. *)
Theorem complete_mix_thirty_seconds (env : Env) (fuel : nat) (m : MusicMixer)
    (g : rng) (num_layers : Z) (custom_samples_dir : option string)
    (audio_path : string) (mix : AudioSegment) (info : CompositionInfo)
    (m' : MusicMixer) (g' : rng) :
  generate_complete_mix env fuel m g num_layers custom_samples_dir
    = (Ret (audio_path, mix, info), m', g') →
  length_ms mix = 30000%N
  ∧ info_layers info ≠ []
  ∧ Z.of_nat (length (info_layers info)) ≤ num_layers
  ∧ info_bpm info = target_bpm m
  ∧ info_target_key info = current_key m
  ∧ info_mode info = (if experimental_mode m then "experimental" else "standard")
  ∧ audio_path
    = OsPath.join (temp_dir m) ("mix_" +:+ strftime_now env "%H%M%S" +:+ ".wav").
Proof.
  unfold generate_complete_mix.
  destruct (create_multilayer_composition env fuel m g num_layers custom_samples_dir)
    as [[[[layers i]|e|] m1] g1] eqn:Ec; try (intros H; discriminate H).
  destruct layers as [|l layers]; [intros H; discriminate H|].
  destruct (generate_mix_audio env fuel m1 (l :: layers) 30000) as [[p a]|e|] eqn:Eg;
    try (intros H; discriminate H).
  intros H. injection H as -> -> -> -> ->.
  pose proof (create_multilayer_composition_ret _ _ _ _ _ _ _ _ _ _ Ec)
    as (_ & Hm & Hi & selected & g2 & Hsample & Hbuild).
  apply sample_ret in Hsample as (_ & _ & Hlen).
  apply build_layers_ret in Hbuild as (Hsub & _).
  apply sublist_length in Hsub. rewrite length_map in Hsub.
  destruct (classify_samples_config env (get_all_samples env m custom_samples_dir) m)
    as (Ht & Hk & He & Hd & _).
  rewrite <- Hm in Ht, Hk, He, Hd.
  unfold generate_mix_audio in Eg.
  destruct (mix_layers fuel (l :: layers) 30000 (Pydub.silent 30000)) as [r|e|] eqn:Em;
    try discriminate Eg.
  injection Eg as <- <-. apply mix_layers_length in Em.
  rewrite Hi. unfold composition_info.
  cbn [info_layers info_bpm info_target_key info_mode].
  rewrite <- Hm, length_map. cbn [length] in *.
  split; [by rewrite Em|]. split; [done|]. split; [lia|].
  by rewrite Ht, Hk, He, Hd.
Qed.

Lemma complete_mix_thirty_seconds_witness :
  let m := MusicMixer_init env_two_pads "samples" 128 (Some "8A") false in
  let r := generate_complete_mix env_two_pads 100 m rng_count 3 None in
  ∃ audio_path mix info,
    r.1.1 = Ret (audio_path, mix, info)
    ∧ length_ms mix = 30000%N
    ∧ audio_path = "/tmp/music_mixer_0/mix_000000.wav".
Proof.
  intros m r.
  assert (H0 : ∃ audio_path mix info m' g',
             r = (Ret (audio_path, mix, info), m', g')).
  { vm_compute. do 5 eexists. reflexivity. }
  destruct H0 as (audio_path & mix & info & m' & g' & Er).
  pose proof (complete_mix_thirty_seconds env_two_pads 100 m rng_count 3 None
                audio_path mix info m' g' Er) as (Hlen & _ & _ & _ & _ & _ & Hp).
  exists audio_path, mix, info. rewrite Er. split; [done|]. split; [done|].
  rewrite Hp. by vm_compute.
Defined.

(** X11: A request for zero layers over a library that is not empty is fatal:
    nothing is selected and [generate_complete_mix] raises. *)
Theorem zero_layers_requested (env : Env) (fuel : nat) (m : MusicMixer) (g : rng)
    (custom_samples_dir : option string) :
  get_all_samples env m custom_samples_dir ≠ [] →
  (∃ info, (create_multilayer_composition env fuel m g 0 custom_samples_dir).1.1
           = Ret ([], info))
  ∧ (generate_complete_mix env fuel m g 0 custom_samples_dir).1.1
    = Raise (ValueError "Could not create composition").
Proof.
  intros Hne.
  assert (Hc : ∃ info,
             (create_multilayer_composition env fuel m g 0 custom_samples_dir).1.1
             = Ret ([], info)).
  { unfold create_multilayer_composition.
    destruct (get_all_samples env m custom_samples_dir) as [|s samples] eqn:Es; [done|].
    pose proof (classify_samples_populated env m (s :: samples) ltac:(done)) as Hpop.
    destruct (classify_samples env m (s :: samples)) as [categories m1].
    pose proof (available_categories_spec m1 categories g) as (_ & _ & _ & Hempty).
    destruct (available_categories m1 categories g) as [available g1].
    cbn [fst snd] in *.
    destruct available as [|c available]; [exfalso; by apply Hpop, Hempty|].
    replace (Z.min 0 (Z.of_nat (length (c :: available)))) with 0 by lia.
    cbn. by eexists. }
  split; [exact Hc|]. destruct Hc as [info Hc].
  unfold generate_complete_mix.
  destruct (create_multilayer_composition env fuel m g 0 custom_samples_dir)
    as [[o m1] g1]. cbn [fst] in *. by subst o.
Qed.

Lemma zero_layers_requested_witness :
  (generate_complete_mix env_one_second 100 mixer_one_second rng_count 0 None).1.1
    = Raise (ValueError "Could not create composition").
Proof.
  apply (zero_layers_requested env_one_second 100 mixer_one_second rng_count None).
  by vm_compute.
Defined.

(** ** Use of the random source *)

(** X12: The inclusion step takes one value from the random source for each
    populated category and none for an empty one, so the candidates are
    computed with exactly as many draws as there are populated categories,
    whether or not the fallback is used; the sequence of draws itself is
    never altered. *)
Theorem inclusion_draw_count (m : MusicMixer)
    (categories : gmap string (list sample_info)) (g : rng) :
  let r := available_categories m categories g in
  cursor r.2 = (cursor g + length (populated_categories categories))%nat
  ∧ draws r.2 = draws g
  ∧ (length (populated_categories categories) ≤ 8)%nat.
Proof.
  assert (Hs : ∀ probabilities order g0,
             let r := stochastic_inclusion probabilities categories order g0 in
             cursor r.2 = (cursor g0 + length (filter (fun c => populated categories c = true) order))%nat
             ∧ draws r.2 = draws g0).
  { intros probabilities order. induction order as [|c order IH]; intros g0.
    { cbn. split; [lia|done]. }
    cbn [stochastic_inclusion]. rewrite filter_cons.
    destruct (populated categories c).
    - destruct (decide (true = true)); [|done].
      unfold Random.random, Random.next_draw.
      specialize (IH (Rng (draws g0) (S (cursor g0)))). cbn zeta in IH.
      destruct (stochastic_inclusion probabilities categories order _) as [rest g2].
      cbn [fst snd draws cursor length] in *. split; [lia|apply IH].
    - destruct (decide (false = true)); [done|]. apply IH. }
  intros r. unfold r, available_categories.
  specialize (Hs (if experimental_mode m then EXPERIMENTAL_PROBABILITIES
                  else STANDARD_PROBABILITIES) priority_order g).
  cbn zeta in Hs. fold (populated_categories categories) in Hs.
  destruct (stochastic_inclusion _ categories priority_order g) as [[|c l] g1];
    cbn [fst snd] in *.
  - split; [apply Hs|]. split; [apply Hs|].
    pose proof (sublist_length _ _ (sublist_filter
                  (fun c => populated categories c = true) priority_order)) as H.
    exact H.
  - split; [apply Hs|]. split; [apply Hs|].
    pose proof (sublist_length _ _ (sublist_filter
                  (fun c => populated categories c = true) priority_order)) as H.
    exact H.
Qed.

(** ** The scan *)

Lemma is_audio_file_name (f : string) : is_audio_file f = true ↔ audio_name f.
Proof.
  unfold is_audio_file, audio_extensions, audio_name. rewrite existsb_exists. split.
  - intros (e & He & H). exists e.
    split; [by apply list_elem_of_In|by apply endswith_suffix].
  - intros (e & He & H). exists e.
    split; [by apply list_elem_of_In|by apply endswith_suffix].
Qed.

(** X13: [get_all_samples] returns, in the order of the walk, the join of the
    directory and the name of every walked file whose lower-cased name ends
    in [.wav], [.mp3], [.flac] or [.aiff], and nothing else; an empty
    [custom_dir] counts as absent.  Of the ten files of a library with one
    sub-directory the four audio files are returned, whatever the case of
    their extension; [kick.wav.bak], [x.aif] and a file named [wav] are
    not. *)
Theorem get_all_samples_audio_only (env : Env) (m : MusicMixer)
    (custom_dir : option string) (p : string) :
  let search_dir :=
    match custom_dir with
    | Some d => if String.eqb d "" then samples_dir m else d
    | None => samples_dir m
    end in
  (p ∈ get_all_samples env m custom_dir ↔
     ∃ root files f,
       (root, files) ∈ os_walk env search_dir ∧ f ∈ files
       ∧ (∃ ext stem, ext ∈ [".wav"; ".mp3"; ".flac"; ".aiff"]
                      ∧ Py.lower f = stem +:+ ext)
       ∧ p = OsPath.join root f)
  ∧ get_all_samples env m (Some "") = get_all_samples env m None
  ∧ get_all_samples env_scan (MusicMixer_init env_scan "lib" 128 None false) None
    = ["lib/Kick.WAV"; "lib/bass.mp3"; "lib/pads/pad.flac"; "lib/pads/Lead.Aiff"].
Proof.
  intros search_dir. split; [|by vm_compute].
  unfold get_all_samples. fold search_dir.
  rewrite list_elem_of_In, in_flat_map. split.
  - intros ([root files] & Hrf & Hp). cbn [fst snd] in Hp.
    apply list_elem_of_In, list_elem_of_fmap in Hp as (f & -> & Hf).
    apply list_elem_of_filter in Hf as [Ha Hf].
    exists root, files, f. split; [by apply list_elem_of_In|].
    split; [done|]. split; [|done].
    apply Is_true_true, is_audio_file_name in Ha as (ext & Hext & stem & Hstem).
    by exists ext, stem.
  - intros (root & files & f & Hrf & Hf & (ext & stem & Hext & Hstem) & ->).
    exists (root, files). split; [by apply list_elem_of_In|]. cbn [fst snd].
    apply list_elem_of_In, list_elem_of_fmap. exists f. split; [done|].
    apply list_elem_of_filter. split; [|done].
    apply Is_true_true, is_audio_file_name. exists ext. split; [done|by exists stem].
Qed.

(** ** Termination of the composition *)

Lemma optimize_audio_length_fuel (a : AudioSegment) (target_bpm : Z) (fuel : nat) :
  (0 < length_ms a)%N → (four_bar_fuel target_bpm ≤ fuel)%nat →
  optimize_audio_length fuel a target_bpm ≠ Timeout.
Proof.
  intros Hpos Hfuel. unfold optimize_audio_length, four_bar_fuel in *.
  destruct (target_bpm =? 0); [done|].
  destruct (Qlt_bool (len_Q a) _); [|done].
  destruct (repeat_append_terminates a
              (inject_Z 60000 / inject_Z target_bpm * inject_Z 4 * inject_Z 4)
              fuel Pydub.empty Hpos) as (r & -> & _); [|done].
  cbn [Pydub.empty length_ms]. lia.
Qed.

Lemma build_layers_no_timeout (env : Env) (fuel : nat) (m : MusicMixer)
    (categories : gmap string (list sample_info))
    (compatible_keys : list (option string)) (selected : list string) (g : rng) :
  (∀ p a, from_file env p = Some a → (0 < length_ms a)%N) →
  (four_bar_fuel (target_bpm m) ≤ fuel)%nat →
  (build_layers env fuel m categories compatible_keys selected g).1 ≠ Timeout.
Proof.
  intros Hfiles Hfuel. revert g.
  induction selected as [|c selected IH]; intros g; [done|].
  cbn [build_layers].
  destruct (Random.choice _ g) as [[[[sample_path bpm] skey]|] g1]; [|apply IH].
  assert (Ha : layer_audio env fuel m sample_path bpm ≠ Timeout).
  { unfold layer_audio.
    destruct (from_file env sample_path) as [a|] eqn:Ef; [|done].
    pose proof (optimize_audio_length_fuel a (target_bpm m) fuel
                  (Hfiles _ _ Ef) Hfuel) as Ho.
    by destruct (optimize_audio_length fuel a (target_bpm m)). }
  destruct (layer_audio env fuel m sample_path bpm) as [a|e|]; [|apply IH|done].
  destruct (Random.uniform _ _ g1) as [v g2].
  specialize (IH g2).
  by destruct (build_layers env fuel m categories compatible_keys selected g2)
    as [[ls|e|] g3].
Qed.

(** X14: When every file that decodes has audio of positive length, the
    composition finishes: from a fuel that depends on the target tempo
    alone, [create_multilayer_composition] returns or raises, whatever the
    random source, the layer count and the directory. *)
Theorem composition_terminates (env : Env) (m : MusicMixer) :
  (∀ p a, from_file env p = Some a → (0 < length_ms a)%N) →
  ∀ (fuel : nat) (g : rng) (num_layers : Z) (custom_samples_dir : option string),
    (four_bar_fuel (target_bpm m) ≤ fuel)%nat →
    (create_multilayer_composition env fuel m g num_layers custom_samples_dir).1.1
      ≠ Timeout.
Proof.
  intros Hfiles fuel g num_layers custom_samples_dir Hfuel.
  unfold create_multilayer_composition.
  destruct (get_all_samples env m custom_samples_dir) as [|s samples]; [done|].
  destruct (classify_samples_config env (s :: samples) m) as (Ht & _).
  destruct (classify_samples env m (s :: samples)) as [categories m1].
  cbn [snd] in Ht.
  destruct (available_categories m1 categories g) as [[|c available] g1]; [done|].
  pose proof (sample_not_timeout (c :: available)
                (Z.min num_layers (Z.of_nat (length (c :: available)))) g1) as Hs.
  destruct (Random.sample (c :: available) _ g1) as [[selected|e|] g2]; [|done|done].
  pose proof (build_layers_no_timeout env fuel m1 categories
                (get_compatible_keys (current_key m1)) selected g2 Hfiles
                ltac:(by rewrite Ht)) as Hb.
  by destruct (build_layers env fuel m1 categories _ selected g2) as [[ls|e|] g3].
Qed.

Lemma composition_terminates_witness :
  (create_multilayer_composition env_one_second (four_bar_fuel 128) mixer_one_second
     rng_count 3 None).1.1 ≠ Timeout.
Proof.
  apply (composition_terminates env_one_second mixer_one_second).
  - intros p a H. injection H as <-. done.
  - apply Nat.le_refl.
Defined.

(** ** Completeness of the selection *)

Lemma layer_audio_no_raise (env : Env) (fuel : nat) (m : MusicMixer) (p : string)
    (bpm : Z) (e : exn) :
  (∀ q, from_file env q ≠ None) → target_bpm m ≠ 0 →
  layer_audio env fuel m p bpm ≠ Raise e.
Proof.
  intros Hfiles Ht. unfold layer_audio.
  destruct (from_file env p) as [a|] eqn:Ef; [|by destruct (Hfiles p)].
  assert (Ho : optimize_audio_length fuel a (target_bpm m) ≠ Raise e).
  { unfold optimize_audio_length.
    destruct (Z.eqb_spec (target_bpm m) 0); [done|].
    destruct (Qlt_bool _ _); [|done]. by destruct (repeat_append _ _ _ _). }
  destruct (optimize_audio_length fuel a (target_bpm m)); [done| |done].
  intros H. injection H as ->. done.
Qed.

Lemma build_layers_complete (env : Env) (fuel : nat) (m : MusicMixer)
    (categories : gmap string (list sample_info))
    (compatible_keys : list (option string)) (selected : list string)
    (g g' : rng) (layers : list Layer) :
  (∀ q, from_file env q ≠ None) → target_bpm m ≠ 0 →
  (∀ c, c ∈ selected → populated categories c = true) →
  build_layers env fuel m categories compatible_keys selected g = (Ret layers, g') →
  map category layers = selected.
Proof.
  intros Hfiles Ht. revert g g' layers.
  induction selected as [|c selected IH]; intros g g' layers Hpop.
  { intros H. by injection H as <- <-. }
  cbn [build_layers].
  assert (Hne : samples_to_use c compatible_keys (bucket categories c) ≠ []).
  { pose proof (proj1 (populated_bucket categories c) (Hpop c ltac:(left))) as Hb.
    unfold samples_to_use. destruct (filter _ (bucket categories c)); done. }
  assert (Hc : ∀ g0, (Random.choice
                        (samples_to_use c compatible_keys (bucket categories c)) g0).1
                     ≠ None).
  { intros g0. unfold Random.choice.
    destruct (samples_to_use c compatible_keys (bucket categories c)) as [|i l] eqn:Es;
      [done|].
    pose proof (randbelow_lt (length (i :: l)) g0 ltac:(cbn; lia)) as Hj.
    destruct (Random.randbelow (length (i :: l)) g0) as [j g1]. cbn [fst] in *.
    apply lookup_lt_is_Some_2 in Hj as [x Hx]. by rewrite Hx. }
  specialize (Hc g).
  destruct (Random.choice _ g) as [[[[sample_path bpm] skey]|] g1]; [|done].
  pose proof (layer_audio_no_raise env fuel m sample_path bpm) as Hr.
  destruct (layer_audio env fuel m sample_path bpm) as [a|e|];
    [|by destruct (Hr e Hfiles Ht)|intros H; discriminate H].
  destruct (Random.uniform _ _ g1) as [v g2].
  destruct (build_layers env fuel m categories compatible_keys selected g2)
    as [[ls|e|] g3] eqn:Eb; intros H; try discriminate H.
  injection H as <- <-. cbn [map category]. f_equal.
  eapply IH; [|exact Eb]. intros c' Hc'. apply Hpop. by right.
Qed.

(** X15: When every file decodes and the target tempo is not zero, no layer is
    lost: a returned composition has exactly [min(num_layers, number of
    candidates)] layers, and when [num_layers] is at least the number of
    candidates it has one layer for each candidate category. *)
Theorem all_candidates_used (env : Env) (fuel : nat) (m : MusicMixer)
    (g : rng) (num_layers : Z) (custom_samples_dir : option string)
    (layers : list Layer) (info : CompositionInfo) (m' : MusicMixer) (g' : rng) :
  create_multilayer_composition env fuel m g num_layers custom_samples_dir
    = (Ret (layers, info), m', g') →
  (∀ q, from_file env q ≠ None) → target_bpm m ≠ 0 →
  let samples := get_all_samples env m custom_samples_dir in
  let categories := (classify_samples env m samples).1 in
  let m1 := (classify_samples env m samples).2 in
  let candidates := (available_categories m1 categories g).1 in
  Z.of_nat (length layers) = Z.min num_layers (Z.of_nat (length candidates))
  ∧ (Z.of_nat (length candidates) ≤ num_layers → map category layers ≡ₚ candidates).
Proof.
  intros Hret Hfiles Ht samples categories m1 candidates.
  apply create_multilayer_composition_ret in Hret
    as (_ & _ & _ & selected & g2 & Hsample & Hbuild).
  fold samples categories m1 candidates in Hsample, Hbuild.
  apply sample_ret in Hsample as (Hk & Hsel & Hlen).
  destruct (classify_samples_config env samples m) as (Ht1 & _).
  fold m1 in Ht1.
  apply build_layers_complete in Hbuild; [|done|by rewrite Ht1|].
  - split.
    + rewrite <- (length_map category), Hbuild, Hlen. lia.
    + intros Hn. rewrite Hbuild.
      apply submseteq_length_Permutation; [done|]. rewrite Hlen. lia.
  - intros c Hc.
    pose proof (available_categories_spec m1 categories g) as (Hsub & _).
    eapply elem_of_submseteq in Hc; [|exact Hsel].
    eapply elem_of_sublist in Hc; [|exact Hsub].
    unfold populated_categories in Hc. by apply list_elem_of_filter in Hc as [Hc _].
Qed.

Lemma all_candidates_used_witness :
  let m := MusicMixer_init env_two_pads "samples" 128 (Some "8A") false in
  let r := create_multilayer_composition env_two_pads 100 m rng_count 3 None in
  ∃ layers info, r.1.1 = Ret (layers, info) ∧ Z.of_nat (length layers) = 1.
Proof.
  intros m r.
  assert (H0 : ∃ layers info m' g', r = (Ret (layers, info), m', g')).
  { vm_compute. do 4 eexists. reflexivity. }
  destruct H0 as (layers & info & m' & g' & Er).
  pose proof (all_candidates_used env_two_pads 100 m rng_count 3 None
                layers info m' g' Er ltac:(done) ltac:(done)) as [Hlen _].
  exists layers, info. rewrite Er. split; [done|].
  rewrite Hlen. by vm_compute.
Defined.
